(** * consulrange: the lease-assignment plugin of coredhcp

    A shallow embedding of [plugins/consul_range/plugin.go] and the
    properties of its lease protocol: [Handler4] (one DHCPv4 request) and
    [setupConsulRange] (argument validation and startup recovery).

    Conventions.
    - [Time] is a point in time as a number of nanoseconds since the Unix
      epoch, [Duration] an [int64] number of nanoseconds, as in Go's
      [time] package.
    - The lease table [Recordsv4] is a Go [map[string]*Record]; every
      pointer in it is held by exactly one key, so the table is modelled
      as a finite map to record values and an update through the pointer
      as a map update at that key.
    - The mutex taken on entry of [Handler4] serialises the calls: a run
      of the plugin is a sequence of calls, each applied to the state its
      predecessor left. *)

From Stdlib Require Import ZArith String Ascii List Lia.
From Stdlib Require Import Init.Byte Strings.Byte.
From stdpp Require Import base option list gmap strings.

Local Open Scope Z_scope.

(** ** Go's [time] package, as far as the plugin uses it *)

Definition Time := Z.
Definition Duration := Z.

Definition Nanosecond : Duration := 1.
Definition Millisecond : Duration := 1000000.
Definition Second : Duration := 1000000000.
Definition Minute : Duration := 60 * Second.
Definition Hour : Duration := 60 * Minute.

Definition minDuration : Duration := - 2 ^ 63.
Definition maxDuration : Duration := 2 ^ 63 - 1.

(** Two's complement reading of a 64-bit result. *)
Definition wrap64 (z : Z) : Z := (z + 2 ^ 63) mod 2 ^ 64 - 2 ^ 63.

(** The conversion [uint64(x)] of an [int64]. *)
Definition uint64 (z : Z) : Z := z mod 2 ^ 64.

(** [lessThanHalf(x, y)]: [uint64(x)+uint64(x) < uint64(y)]. *)
Definition lessThanHalf (x y : Duration) : bool :=
  uint64 (uint64 x + uint64 x) <? uint64 y.

(** [Duration.Round(m)]: [d] rounded to the nearest multiple of [m],
    halfway values away from zero; saturating when the result does not
    fit. Go's [%] truncates toward zero ([Z.rem]). *)
Definition Duration_Round (d m : Duration) : Duration :=
  if m <=? 0 then d
  else
    let r := Z.rem d m in
    if d <? 0 then
      let r := wrap64 (- r) in
      if lessThanHalf r m then wrap64 (d + r)
      else
        let d1 := wrap64 (wrap64 (d - m) + r) in
        if d1 <? d then d1 else minDuration
    else if lessThanHalf r m then wrap64 (d - r)
    else
      let d1 := wrap64 (wrap64 (d + m) - r) in
      if d <? d1 then d1 else maxDuration.

(** [t.Add(d)]. *)
Definition Time_Add (t : Time) (d : Duration) : Time := t + d.

(** [t.Unix()]: whole seconds since the epoch (the seconds field of the
    time value, so the floor for times before the epoch too). *)
Definition Time_Unix (t : Time) : Z := t / Second.

(** [time.Unix(sec, 0)]. *)
Definition time_Unix (sec : Z) : Time := sec * Second.

(** [t.Before(u)]. *)
Definition Time_Before (t u : Time) : bool := t <? u.

(** [t.Round(d)]: the remainder [r] of [t] by [d] is taken since the zero
    time, which lies a whole number of seconds before the epoch; for the
    one [d] the plugin passes, [time.Second], it is the remainder of the
    Unix nanoseconds. Halfway values round up. *)
Definition Time_Round (t : Time) (d : Duration) : Time :=
  if d <=? 0 then t
  else
    let r := t mod d in
    if lessThanHalf r d then Time_Add t (- r) else Time_Add t (d - r).

(** ** Addresses *)

(** An IPv4 address, as the 32-bit number its four bytes spell in network
    order: what [binary.BigEndian.Uint32(ip.To4())] reads. Two IPv4
    addresses have the same [String()] exactly when they are equal. *)
Definition IP := Z.

Definition IPv4 (a b c d : Z) : IP :=
  Z.lor (Z.lor (Z.lor (Z.shiftl a 24) (Z.shiftl b 16)) (Z.shiftl c 8)) d.

Definition BigEndian_Uint32 (ip : IP) : Z := ip mod 2 ^ 32.

(** [net.HardwareAddr]: a byte slice. *)
Definition HardwareAddr := list byte.

Definition hexDigit : string := "0123456789abcdef".

Definition hexDigit_at (i : N) : ascii :=
  match String.get (N.to_nat i) hexDigit with
  | Some c => c
  | None => "0"%char
  end.

(** The two characters [hexDigit[b>>4]], [hexDigit[b&0xF]]. *)
Definition hex_pair (b : byte) (tail : string) : string :=
  String (hexDigit_at (N.shiftr (Byte.to_N b) 4))
    (String (hexDigit_at (N.land (Byte.to_N b) 15)) tail).

(** The loop of [HardwareAddr.String]: a [':'] before every byte but the
    first. *)
Fixpoint HardwareAddr_String_from (i : nat) (a : HardwareAddr) : string :=
  match a with
  | [] => EmptyString
  | b :: rest =>
      let s := hex_pair b (HardwareAddr_String_from (S i) rest) in
      match i with
      | O => s
      | S _ => String ":"%char s
      end
  end.

(** [HardwareAddr.String()]: the empty string for an empty address. *)
Definition HardwareAddr_String (a : HardwareAddr) : string :=
  match a with
  | [] => EmptyString
  | _ => HardwareAddr_String_from 0 a
  end.

(** ** Records, messages, log *)

(** The type [Record] of the source. *)
Record Record_ := mkRecord {
  IP_ : IP;             (* IP *)
  Expires : Z;          (* a Unix timestamp, seconds *)
  Hostname : string
}.

(** The fields of a [dhcpv4.DHCPv4] message the plugin reads or writes:
    [HostName] is what [req.HostName()] returns, [IPAddressLeaseTime] the
    value of the option set by [OptIPAddressLeaseTime]. *)
Record DHCPv4 := mkDHCPv4 {
  ClientHWAddr : HardwareAddr;
  HostName : string;
  YourIPAddr : IP;
  IPAddressLeaseTime : option Duration
}.

(** Go's [error] values, by their message. *)
Definition error := string.

Inductive LogArg :=
| ArgString (s : string)
| ArgIP (ip : IP)
| ArgError (e : error)
| ArgInt (n : Z).

Inductive LogEntry :=
| Printf (format : string) (args : list LogArg)
| Errorf (format : string) (args : list LogArg).

Definition is_Errorf (l : LogEntry) : bool :=
  match l with
  | Errorf _ _ => true
  | Printf _ _ => false
  end.

(** ** The address allocator: the interface [allocators.Allocator] *)

(** [Allocate(hint)] returns an address or an error and may change the
    allocator. The hint [net.IPNet{}] is [None], the hint
    [net.IPNet{IP: ip}] is [Some ip]. ([Free] is never called.) *)
Class Allocator (A : Type) := {
  Allocate : A → option IP → A * (IP + error)
}.

(** Modelled from the spec: the contract of the Address Allocator (§4.2),
    whose implementations are not among the sources. [allocated a ip]:
    the allocator [a] holds [ip] as taken. No address is returned twice,
    nothing is ever released, and a failed allocation mutates nothing. *)
Record AllocatorContract {A : Type} `{Allocator A}
    (allocated : A → IP → Prop) : Prop := {
  allocate_fresh : ∀ a hint a' ip,
    Allocate a hint = (a', inl ip) → ¬ allocated a ip ∧ allocated a' ip;
  allocate_keeps : ∀ a hint a' r ip,
    Allocate a hint = (a', r) → allocated a ip → allocated a' ip;
  allocate_failure_pure : ∀ a hint a' e,
    Allocate a hint = (a', inr e) → a' = a
}.

(** ** The durable record store *)

Module Consul.

(** Modelled from the spec: the Durable Record Store (§4.3), whose
    client code ([saveIPAddress], [loadRecords]) is not among the
    sources. Records live under a key prefix and a hardware identifier;
    [requests] lists the upserts the store was sent, latest first,
    accepted or not. *)
Record t := mk {
  kv : gmap string (gmap string Record_);
  requests : list (string * string * Record_)
}.

Definition namespace (prefix : string) (s : t) : gmap string Record_ :=
  default ∅ (kv s !! prefix).

(** Modelled from the spec: [LoadAll(prefix)], every record under the
    prefix, by hardware identifier. *)
Definition LoadAll (prefix : string) (s : t) : gmap string Record_ :=
  namespace prefix s.

(** Modelled from the spec: [Upsert(prefix, hwAddr, Record) -> ok |
    Error]. [accepted] tells whether the store takes the write; a
    rejected write leaves every record as it was. *)
Definition Upsert (accepted : bool) (prefix hw : string) (r : Record_)
    (s : t) : option error * t :=
  let sent := (prefix, hw, r) :: requests s in
  if accepted then
    (None, mk (<[prefix := <[hw := r]> (namespace prefix s)]> (kv s)) sent)
  else
    (Some "consul: write failed"%string, mk (kv s) sent).

Definition lookup (prefix hw : string) (s : t) : option Record_ :=
  namespace prefix s !! hw.

End Consul.

(** ** The plugin *)

(** What the surroundings decide during one call of [Handler4]:
    [now_first] is the clock reading of the first [time.Now()] of the
    call (the expiry of a new record, or the renewal test), [now_second]
    the reading of the [time.Now()] that sets a renewed expiry, and
    [store_accepts] whether the store takes the write [saveIPAddress]
    sends. *)
Record Env := mkEnv {
  now_first : Time;
  now_second : Time;
  store_accepts : bool
}.

Section Plugin.

Context {A : Type} `{Allocator A}.

(** [PluginState]; the client handle [consulClient] is the access to the
    store [consul] of the [World] below. *)
Record PluginState := mkPluginState {
  Recordsv4 : gmap string Record_;
  LeaseTime : Duration;
  allocator : A;
  consulURL : string;
  consulKVPrefix : string
}.

(** Everything a call can read or change: the plugin, the durable store,
    the log, and the history of the calls made to the allocator (latest
    first), which no code reads. *)
Record World := mkWorld {
  plugin : PluginState;
  consul : Consul.t;
  journal : list LogEntry;
  allocations : list (option IP * (IP + error))
}.

Definition M (X : Type) : Type := World → X * World.

#[global] Instance M_ret : MRet M := λ X x w, (x, w).
#[global] Instance M_bind : MBind M :=
  λ X Y f c w, let '(x, w') := c w in f x w'.

Definition with_plugin (f : PluginState → PluginState) (w : World) : World :=
  mkWorld (f (plugin w)) (consul w) (journal w) (allocations w).

Definition lookupRecord (mac : string) : M (option Record_) :=
  λ w, (Recordsv4 (plugin w) !! mac, w).

Definition storeRecord (mac : string) (r : Record_) : M unit :=
  λ w, (tt, with_plugin (λ p,
          mkPluginState (<[mac := r]> (Recordsv4 p)) (LeaseTime p)
            (allocator p) (consulURL p) (consulKVPrefix p)) w).

Definition getLeaseTime : M Duration := λ w, (LeaseTime (plugin w), w).

Definition log_Printf (format : string) (args : list LogArg) : M unit :=
  λ w, (tt, mkWorld (plugin w) (consul w) (Printf format args :: journal w)
              (allocations w)).

Definition log_Errorf (format : string) (args : list LogArg) : M unit :=
  λ w, (tt, mkWorld (plugin w) (consul w) (Errorf format args :: journal w)
              (allocations w)).

(** [p.allocator.Allocate(hint)]. *)
Definition allocator_Allocate (hint : option IP) : M (IP + error) :=
  λ w,
    let '(a', r) := Allocate (allocator (plugin w)) hint in
    (r, mkWorld
          (mkPluginState (Recordsv4 (plugin w)) (LeaseTime (plugin w)) a'
             (consulURL (plugin w)) (consulKVPrefix (plugin w)))
          (consul w) (journal w) ((hint, r) :: allocations w)).

(** Modelled from the spec: [saveIPAddress], the upsert of one record
    under the plugin's key prefix and the client's hardware identifier;
    its source is not among the files at hand. *)
Definition saveIPAddress (accepted : bool) (mac : HardwareAddr)
    (record : Record_) : M (option error) :=
  λ w,
    let '(err, store) :=
      Consul.Upsert accepted (consulKVPrefix (plugin w))
        (HardwareAddr_String mac) record (consul w) in
    (err, mkWorld (plugin w) store (journal w) (allocations w)).

(** The last three statements of [Handler4]. *)
Definition respond (mac : string) (record : Record_) (resp : DHCPv4)
    : M (option DHCPv4 * bool) :=
  leaseTime ← getLeaseTime;
  log_Printf "found IP address %s for MAC %s"
    [ArgIP (IP_ record); ArgString mac];;
  mret (Some (mkDHCPv4 (ClientHWAddr resp) (HostName resp) (IP_ record)
                (Some (Duration_Round leaseTime Second))),
        false).

Definition Handler4 (e : Env) (req resp : DHCPv4) : M (option DHCPv4 * bool) :=
  let mac := HardwareAddr_String (ClientHWAddr req) in
  found ← lookupRecord mac;
  let hostname := HostName req in
  match found with
  | None =>
      log_Printf "MAC address %s is new, leasing new IPv4 address"
        [ArgString mac];;
      allocation ← allocator_Allocate None;
      match allocation with
      | inr err =>
          log_Errorf "Could not allocate IP for MAC %s: %v"
            [ArgString mac; ArgError err];;
          mret (None, true)
      | inl ip =>
          leaseTime ← getLeaseTime;
          let rec :=
            mkRecord ip (Time_Unix (Time_Add (now_first e) leaseTime))
              hostname in
          err ← saveIPAddress (store_accepts e) (ClientHWAddr req) rec;
          match err with
          | Some err =>
              log_Errorf "SaveIPAddress for MAC %s failed: %v"
                [ArgString mac; ArgError err]
          | None => mret tt
          end;;
          storeRecord mac rec;;
          respond mac rec resp
      end
  | Some record =>
      leaseTime ← getLeaseTime;
      let expiry := time_Unix (Expires record) in
      if Time_Before expiry (Time_Add (now_first e) leaseTime) then
        let record :=
          mkRecord (IP_ record)
            (Time_Unix
               (Time_Round (Time_Add (now_second e) leaseTime) Second))
            hostname in
        storeRecord mac record;;
        err ← saveIPAddress (store_accepts e) (ClientHWAddr req) record;
        match err with
        | Some err =>
            log_Errorf "Could not persist lease for MAC %s: %v"
              [ArgString mac; ArgError err]
        | None => mret tt
        end;;
        respond mac record resp
      else respond mac record resp
  end.

End Plugin.

Arguments PluginState : clear implicits.
Arguments World : clear implicits.
Arguments M : clear implicits.

(** ** Setup *)

(** What [setupConsulRange] takes from outside the plugin: the standard
    library, the bitmap allocator's constructor, the store's client
    constructor, and the order in which [range] visits the lease table.
    [net_ParseIP_To4 s] is [net.ParseIP(s).To4()], [None] for [nil];
    [api_NewClient url] is the error of [api.NewClient], if any. *)
Class Runtime (A : Type) := {
  net_ParseIP_To4 : string → option IP;
  bitmap_NewIPv4Allocator : IP → IP → A + error;
  time_ParseDuration : string → Duration + error;
  api_NewClient : string → option error;
  range_Recordsv4 : gmap string Record_ → list (string * Record_)
}.

(** A [range] over a map visits every entry once, in some order. *)
Definition RangeVisitsAll {A : Type} `{Runtime A} : Prop :=
  ∀ m : gmap string Record_, range_Recordsv4 m ≡ₚ map_to_list m.

Inductive SetupError :=
| InvalidNumberOfArguments (got : nat)
| ConsulURLEmpty
| ConsulKVPrefixEmpty
| InvalidIPv4Address (literal : string)
| RangeStartNotLower
| CouldNotCreateAllocator (e : error)
| InvalidLeaseDuration (literal : string)
| FailedToCreateConsulClient (e : error)
| CouldNotLoadRecords (e : error)
| FailedToReallocate (leased : IP) (e : error)
| DidNotReallocate (leased : IP) (got : IP).

(** The errors that argument validation raises (§7, configuration
    errors). *)
Definition is_configuration_error (e : SetupError) : bool :=
  match e with
  | InvalidNumberOfArguments _ | ConsulURLEmpty | ConsulKVPrefixEmpty
  | InvalidIPv4Address _ | RangeStartNotLower | CouldNotCreateAllocator _
  | InvalidLeaseDuration _ => true
  | _ => false
  end.

(** The errors of startup recovery (§7, startup consistency errors). *)
Definition is_consistency_error (e : SetupError) : bool :=
  match e with
  | FailedToReallocate _ _ | DidNotReallocate _ _ => true
  | _ => false
  end.

(** Modelled from the spec: [loadRecords], the bulk load of every record
    under the prefix (§4.3 [LoadAll]); its source is not among the files
    at hand. [reachable] tells whether the store answers. *)
Definition loadRecords (reachable : bool) (prefix : string)
    (store : Consul.t) : gmap string Record_ + error :=
  if reachable then inl (Consul.LoadAll prefix store)
  else inr "consul: list failed"%string.

Section Setup.

Context {A : Type} `{Allocator A} `{Runtime A}.

(** The loop at the end of [setupConsulRange], over the entries in the
    order [range] yields them. *)
Fixpoint reallocate (entries : list (string * Record_))
    : M A (option SetupError) :=
  match entries with
  | [] => mret None
  | (_, v) :: rest =>
      allocation ← allocator_Allocate (Some (IP_ v));
      match allocation with
      | inr err => mret (Some (FailedToReallocate (IP_ v) err))
      | inl ip =>
          if negb (ip =? IP_ v)
          then mret (Some (DidNotReallocate (IP_ v) ip))
          else reallocate rest
      end
  end.

(** The first part of [setupConsulRange(args...)], down to the log line:
    the arguments are checked, allocator and client built, and the
    records loaded. The result is the plugin state [p], inside the world
    it starts in, before any address is reserved again. *)
Definition configure (reachable : bool) (store : Consul.t)
    (args : list string) : World A + SetupError :=
  match args with
  | consulURL :: consulKVPrefix :: arg2 :: arg3 :: arg4 :: _ =>
      if String.eqb consulURL "" then inr ConsulURLEmpty
      else if String.eqb consulKVPrefix "" then inr ConsulKVPrefixEmpty
      else
        match net_ParseIP_To4 arg2 with
        | None => inr (InvalidIPv4Address arg2)
        | Some ipRangeStart =>
        match net_ParseIP_To4 arg3 with
        | None => inr (InvalidIPv4Address arg3)
        | Some ipRangeEnd =>
        if BigEndian_Uint32 ipRangeStart >=? BigEndian_Uint32 ipRangeEnd
        then inr RangeStartNotLower
        else
          match bitmap_NewIPv4Allocator ipRangeStart ipRangeEnd with
          | inr err => inr (CouldNotCreateAllocator err)
          | inl alloc =>
          match time_ParseDuration arg4 with
          | inr _ => inr (InvalidLeaseDuration arg4)
          | inl leaseTime =>
          match api_NewClient consulURL with
          | Some err => inr (FailedToCreateConsulClient err)
          | None =>
          match loadRecords reachable consulKVPrefix store with
          | inr err => inr (CouldNotLoadRecords err)
          | inl records =>
              let p :=
                mkPluginState records leaseTime alloc consulURL
                  consulKVPrefix in
              inl (mkWorld p store
                     [Printf "Loaded %d DHCPv4 leases from %s"
                        [ArgInt (Z.of_nat (size records));
                         ArgString consulURL]]
                     [])
          end end end end end end
  | _ => inr (InvalidNumberOfArguments (length args))
  end.

(** [setupConsulRange(args...)]: the part above, then the loop that
    reserves the address of every loaded record. On success it returns
    the handler [p.Handler4]: here the world that handler starts in. *)
Definition setupConsulRange (reachable : bool) (store : Consul.t)
    (args : list string) : World A + SetupError :=
  match configure reachable store args with
  | inr err => inr err
  | inl w =>
      match reallocate (range_Recordsv4 (Recordsv4 (plugin w))) w with
      | (Some err, _) => inr err
      | (None, w') => inl w'
      end
  end.

(** ** Runs: the calls the server makes, one after the other *)

Record Call := mkCall {
  call_env : Env;
  call_req : DHCPv4;
  call_resp : DHCPv4
}.

Definition call_mac (c : Call) : string :=
  HardwareAddr_String (ClientHWAddr (call_req c)).

Fixpoint serve (calls : list Call) : M A (list (option DHCPv4 * bool)) :=
  match calls with
  | [] => mret []
  | c :: rest =>
      out ← Handler4 (call_env c) (call_req c) (call_resp c);
      outs ← serve rest;
      mret (out :: outs)
  end.

End Setup.

(** ** An allocator and a runtime to run the plugin on *)

Module RangeAllocator.

(** Modelled from the spec: an Address Allocator over the closed range
    [first .. last] (§4.2); the repository's bitmap allocator is not
    among the sources. The hint is where the search for a free address
    starts, wrapping around at the end of the range, so a hint that is
    taken or outside the range yields another address. *)
Record t := mk {
  first : IP;
  last : IP;
  taken : list IP
}.

Definition range (a : t) : list IP := seqZ (first a) (last a - first a + 1).

Definition candidates (a : t) (hint : option IP) : list IP :=
  match hint with
  | Some h =>
      List.filter (λ ip, h <=? ip) (range a)
        ++ List.filter (λ ip, ip <? h) (range a)
  | None => range a
  end.

Definition is_free (a : t) (ip : IP) : bool :=
  negb (existsb (Z.eqb ip) (taken a)).

Definition allocate (a : t) (hint : option IP) : t * (IP + error) :=
  match List.find (is_free a) (candidates a hint) with
  | Some ip => (mk (first a) (last a) (ip :: taken a), inl ip)
  | None => (a, inr "no address available"%string)
  end.

Definition new (start end_ : IP) : t + error :=
  if end_ <? start then inr "no addresses in the range"%string
  else inl (mk start end_ []).

Definition allocated (a : t) (ip : IP) : Prop := In ip (taken a).

#[global] Instance allocator : Allocator t := {| Allocate := allocate |}.

End RangeAllocator.

Module GoRuntime.

(** Stand-ins for the library functions [setupConsulRange] calls, to run
    it on concrete arguments: dotted-decimal address literals (Go reads
    IPv6 literals too) and duration literals made of whole numbers with
    the units [ns], [us], [ms], [s], [m], [h] (Go reads signs and
    fractions too). *)

Definition digit_of (c : ascii) : option Z :=
  let n := Z.of_N (N_of_ascii c) in
  if (48 <=? n) && (n <=? 57) then Some (n - 48) else None.

Fixpoint parse_dotted (s : string) (octets : list Z) (cur : option Z)
    : option (list Z) :=
  match s with
  | EmptyString =>
      match cur with
      | Some v => Some (octets ++ [v])
      | None => None
      end
  | String c rest =>
      if Ascii.eqb c "." then
        match cur with
        | Some v => parse_dotted rest (octets ++ [v]) None
        | None => None
        end
      else
        match digit_of c, cur with
        | Some d, None => parse_dotted rest octets (Some d)
        | Some d, Some v =>
            if (v =? 0) || (255 <? 10 * v + d) then None
            else parse_dotted rest octets (Some (10 * v + d))
        | None, _ => None
        end
  end.

Definition ParseIP_To4 (s : string) : option IP :=
  match parse_dotted s [] None with
  | Some [a; b; c; d] => Some (IPv4 a b c d)
  | _ => None
  end.

Definition unit_of (u : string) : option Duration :=
  if String.eqb u "ns" then Some Nanosecond
  else if String.eqb u "us" then Some (1000 * Nanosecond)
  else if String.eqb u "ms" then Some Millisecond
  else if String.eqb u "s" then Some Second
  else if String.eqb u "m" then Some Minute
  else if String.eqb u "h" then Some Hour
  else None.

Fixpoint parse_terms (s : string) (total : Z) (num : option Z)
    (unit : string) : option Z :=
  match s with
  | EmptyString =>
      match num, unit_of unit with
      | Some n, Some u => Some (total + n * u)
      | _, _ => None
      end
  | String c rest =>
      match digit_of c, num with
      | Some d, None => parse_terms rest total (Some d) ""
      | Some d, Some n =>
          if String.eqb unit "" then
            parse_terms rest total (Some (10 * n + d)) ""
          else
            match unit_of unit with
            | Some u => parse_terms rest (total + n * u) (Some d) ""
            | None => None
            end
      | None, Some _ => parse_terms rest total num (unit ++ String c "")
      | None, None => None
      end
  end.

Definition ParseDuration (s : string) : Duration + error :=
  match parse_terms s 0 None "" with
  | Some d =>
      if d <=? maxDuration then inl d
      else inr "time: invalid duration"%string
  | None => inr "time: invalid duration"%string
  end.

#[global] Instance runtime : Runtime RangeAllocator.t := {|
  net_ParseIP_To4 := ParseIP_To4;
  bitmap_NewIPv4Allocator := RangeAllocator.new;
  time_ParseDuration := ParseDuration;
  api_NewClient := λ _, None;
  range_Recordsv4 := map_to_list
|}.

End GoRuntime.


(** ** What the properties speak of *)

Section Properties.

Context {A : Type} `{Allocator A}.

(** I3: no address is held by two records of the lease table. *)
Definition injective_table (m : gmap string Record_) : Prop :=
  ∀ h1 h2 r1 r2,
    m !! h1 = Some r1 → m !! h2 = Some r2 → IP_ r1 = IP_ r2 → h1 = h2.

(** I2: the address of every record is taken in the allocator. *)
Definition table_allocated (allocated : A → IP → Prop) (w : World A) : Prop :=
  ∀ h r, Recordsv4 (plugin w) !! h = Some r →
         allocated (allocator (plugin w)) (IP_ r).

(** I2 and I3 together. *)
Definition consistent (allocated : A → IP → Prop) (w : World A) : Prop :=
  injective_table (Recordsv4 (plugin w)) ∧ table_allocated allocated w.

(** The durable record of a hardware identifier, under the plugin's
    prefix. *)
Definition durable (w : World A) (mac : string) : option Record_ :=
  Consul.lookup (consulKVPrefix (plugin w)) mac (consul w).


(** The clock does not run backwards during a call. *)
Definition clock_ok (c : Call) : Prop :=
  now_first (call_env c) <= now_second (call_env c).

(** One call of a run. *)
Definition handle (c : Call) (w : World A) : (option DHCPv4 * bool) * World A :=
  Handler4 (call_env c) (call_req c) (call_resp c) w.

(** The response both successful paths end with. *)
Definition response_of (w : World A) (r : Record_) (resp : DHCPv4) : DHCPv4 :=
  mkDHCPv4 (ClientHWAddr resp) (HostName resp) (IP_ r)
    (Some (Duration_Round (LeaseTime (plugin w)) Second)).

Definition new_record (w : World A) (e : Env) (req : DHCPv4) (ip : IP) : Record_ :=
  mkRecord ip (Time_Unix (Time_Add (now_first e) (LeaseTime (plugin w))))
    (HostName req).

Definition renewed_record (w : World A) (e : Env) (req : DHCPv4)
    (r : Record_) : Record_ :=
  mkRecord (IP_ r)
    (Time_Unix (Time_Round (Time_Add (now_second e) (LeaseTime (plugin w)))
                  Second))
    (HostName req).

Definition renewal_due (w : World A) (e : Env) (r : Record_) : bool :=
  Time_Before (time_Unix (Expires r))
    (Time_Add (now_first e) (LeaseTime (plugin w))).

(** The allocator call that reserves the address of a loaded entry and
    gets it. *)
Definition exact (entry : string * Record_) : option IP * (IP + error) :=
  (Some (IP_ entry.2), inl (IP_ entry.2)).

(** The world a run leaves, and the outcomes of its calls. *)
Definition after (calls : list Call) (w : World A) : World A :=
  snd (serve calls w).

Definition outcomes (calls : list Call) (w : World A)
    : list (option DHCPv4 * bool) :=
  fst (serve calls w).

(** The allocator calls of a history that returned an address. *)
Definition granted (history : list (option IP * (IP + error))) : nat :=
  length (List.filter (λ call, match call.2 with
                               | inl _ => true
                               | inr _ => false
                               end) history).

(** The store and the table hold the same records. *)
Definition in_sync (w : World A) : Prop :=
  ∀ mac, durable w mac = Recordsv4 (plugin w) !! mac.

(** The store takes the write of the call, if the call sends one. *)
Definition accepted_call (c : Call) : Prop :=
  store_accepts (call_env c) = true.

End Properties.

(** ** A small installation: the range 10.0.0.2 - 10.0.0.4 *)

Module Scenario.

Import GoRuntime.

Definition url : string := "http://consul:8500".
Definition prefix : string := "dhcp".

Definition ip2 : IP := IPv4 10 0 0 2.
Definition ip3 : IP := IPv4 10 0 0 3.
Definition ip4 : IP := IPv4 10 0 0 4.

(** Hardware addresses [aa], [bb], [cc], [dd]: one byte each. *)
Definition hw_aa : HardwareAddr := [xaa].
Definition hw_bb : HardwareAddr := [xbb].
Definition hw_cc : HardwareAddr := [xcc].
Definition hw_dd : HardwareAddr := [xdd].

Definition request (hw : HardwareAddr) (name : string) : DHCPv4 :=
  mkDHCPv4 hw name 0 None.

Definition reply (hw : HardwareAddr) : DHCPv4 := mkDHCPv4 hw "" 0 None.

Definition args (lease : string) : list string :=
  [url; prefix; "10.0.0.2"; "10.0.0.4"; lease]%string.

(** A store that holds one lease, of [aa], expiring at second 100. *)
Definition rec_aa : Record_ := mkRecord ip2 100 "alpha".

Definition store_aa : Consul.t :=
  Consul.mk {[ prefix := {[ "aa"%string := rec_aa ]} ]} [].

Definition empty_store : Consul.t := Consul.mk ∅ [].

(** The world [setupConsulRange] starts from [store_aa] with a lease
    duration [lease]. *)
Definition world_aa (lease : Duration) : World RangeAllocator.t :=
  mkWorld
    (mkPluginState {[ "aa"%string := rec_aa ]} lease
       (RangeAllocator.mk ip2 ip4 [ip2]) url prefix)
    store_aa
    [Printf "Loaded %d DHCPv4 leases from %s" [ArgInt 1; ArgString url]]
    [(Some ip2, inl ip2)].

(** The world it starts from the empty store. *)
Definition world_empty (lease : Duration) : World RangeAllocator.t :=
  mkWorld
    (mkPluginState ∅ lease (RangeAllocator.mk ip2 ip4 []) url prefix)
    empty_store
    [Printf "Loaded %d DHCPv4 leases from %s" [ArgInt 0; ArgString url]]
    [].

(** The clients [aa], [bb], [cc] lease one after the other, at second 5. *)
Definition at_second (s : Z) (accepted : bool) : Env :=
  mkEnv (s * Second) (s * Second) accepted.

Definition lease_call (s : Z) (accepted : bool) (hw : HardwareAddr)
    (name : string) : Call :=
  mkCall (at_second s accepted) (request hw name) (reply hw).

Definition calls_abc : list Call :=
  [lease_call 5 true hw_aa "alpha"; lease_call 5 true hw_bb "beta";
   lease_call 5 true hw_cc "gamma"].

(** The pool is exhausted after them. *)
Definition world_full : World RangeAllocator.t :=
  after calls_abc (world_empty Hour).

(** A world in which the lease of [aa] is far from its expiry. *)
Definition world_long_lease : World RangeAllocator.t :=
  mkWorld
    (mkPluginState {[ "aa"%string := mkRecord ip2 100000 "alpha" ]} Hour
       (RangeAllocator.mk ip2 ip4 [ip2]) url prefix)
    empty_store [] [].

End Scenario.

(** * Properties *)

(** ** Time *)

Lemma lessThanHalf_small r d :
  0 <= r < d → d < 2 ^ 62 → lessThanHalf r d = (2 * r <? d).
Proof.
  intros Hr Hd. unfold lessThanHalf, uint64.
  assert (H64 : 2 ^ 62 * 4 = 2 ^ 64) by reflexivity.
  rewrite !(Z.mod_small r), (Z.mod_small d), (Z.mod_small (r + r)) by lia.
  f_equal. lia.
Qed.

(** The seconds of a time rounded to the second: round half up. *)
Lemma Time_Round_Second_Unix t :
  Time_Unix (Time_Round t Second) = (t + 500000000) / Second.
Proof.
  unfold Time_Round, Time_Unix, Time_Add.
  change (Second <=? 0) with false. cbv iota.
  change Second with 1000000000.
  pose proof (Z.mod_pos_bound t 1000000000 ltac:(lia)) as Hr.
  pose proof (Z.div_mod t 1000000000 ltac:(lia)) as Hdm.
  rewrite lessThanHalf_small by lia.
  set (q := t / 1000000000) in *. set (m := t mod 1000000000) in *.
  destruct (Z.ltb_spec (2 * m) 1000000000).
  - transitivity q.
    + symmetry. apply Z.div_unique with (r := 0); lia.
    + apply Z.div_unique with (r := m + 500000000); lia.
  - transitivity (q + 1).
    + symmetry. apply Z.div_unique with (r := 0); lia.
    + apply Z.div_unique with (r := m - 500000000); lia.
Qed.

Lemma Time_Unix_mono t u : t <= u → Time_Unix t <= Time_Unix u.
Proof. intros. unfold Time_Unix. apply Z.div_le_mono; [reflexivity | assumption]. Qed.

(** A renewal that passes the test never moves the expiry back, provided
    the clock did not run backwards between the test and the update. *)
Lemma renewed_expiry_not_earlier E D t1 t2 :
  t1 <= t2 →
  Time_Before (time_Unix E) (Time_Add t1 D) = true →
  E <= Time_Unix (Time_Round (Time_Add t2 D) Second).
Proof.
  unfold Time_Before, time_Unix, Time_Add. intros Ht Hlt.
  apply Z.ltb_lt in Hlt. rewrite Time_Round_Second_Unix.
  apply Z.div_le_lower_bound; [reflexivity |].
  change Second with 1000000000 in *. lia.
Qed.


(** ** The four paths of [Handler4] *)

Section HandlerPaths.

Context {A : Type} `{Allocator A}.

Implicit Types (w : World A) (e : Env) (req resp : DHCPv4) (r : Record_).

Ltac run_handler :=
  unfold Handler4, respond, mbind, M_bind, mret, M_ret, lookupRecord,
    storeRecord, getLeaseTime, log_Printf, log_Errorf, allocator_Allocate,
    saveIPAddress, with_plugin, Consul.Upsert;
  cbn.

(** No record, and the allocator fails. *)
Lemma Handler4_exhausted w e req resp a' err :
  Recordsv4 (plugin w) !! HardwareAddr_String (ClientHWAddr req) = None →
  Allocate (allocator (plugin w)) None = (a', inr err) →
  ∃ w', Handler4 e req resp w = ((None, true), w')
    ∧ Recordsv4 (plugin w') = Recordsv4 (plugin w)
    ∧ LeaseTime (plugin w') = LeaseTime (plugin w)
    ∧ consulKVPrefix (plugin w') = consulKVPrefix (plugin w)
    ∧ consulURL (plugin w') = consulURL (plugin w)
    ∧ allocator (plugin w') = a'
    ∧ consul w' = consul w
    ∧ allocations w' = (None, inr err) :: allocations w
    ∧ ∃ fresh, journal w' = fresh ++ journal w
        ∧ existsb is_Errorf fresh = true.
Proof.
  intros Hnone Hal. run_handler. rewrite Hnone, Hal. cbn.
  eexists. split; [reflexivity |]. cbn. repeat split.
  eexists [_; _]. split; reflexivity.
Qed.

(** No record, and the allocator returns [ip]. *)
Lemma Handler4_new w e req resp a' ip :
  let mac := HardwareAddr_String (ClientHWAddr req) in
  let rec := new_record w e req ip in
  Recordsv4 (plugin w) !! mac = None →
  Allocate (allocator (plugin w)) None = (a', inl ip) →
  ∃ w', Handler4 e req resp w = ((Some (response_of w rec resp), false), w')
    ∧ Recordsv4 (plugin w') = <[mac := rec]> (Recordsv4 (plugin w))
    ∧ LeaseTime (plugin w') = LeaseTime (plugin w)
    ∧ consulKVPrefix (plugin w') = consulKVPrefix (plugin w)
    ∧ consulURL (plugin w') = consulURL (plugin w)
    ∧ allocator (plugin w') = a'
    ∧ consul w'
      = snd (Consul.Upsert (store_accepts e) (consulKVPrefix (plugin w)) mac
               rec (consul w))
    ∧ allocations w' = (None, inl ip) :: allocations w
    ∧ ∃ fresh, journal w' = fresh ++ journal w
        ∧ existsb is_Errorf fresh = negb (store_accepts e).
Proof.
  intros mac rec Hnone Hal. run_handler. fold mac. rewrite Hnone, Hal. cbn.
  destruct (store_accepts e); cbn.
  - eexists. split; [reflexivity |]. cbn. repeat split.
    eexists [_; _]. split; reflexivity.
  - eexists. split; [reflexivity |]. cbn. repeat split.
    eexists [_; _; _]. split; reflexivity.
Qed.

(** A record, due for renewal. *)
Lemma Handler4_renew w e req resp r :
  let mac := HardwareAddr_String (ClientHWAddr req) in
  let rec := renewed_record w e req r in
  Recordsv4 (plugin w) !! mac = Some r →
  renewal_due w e r = true →
  ∃ w', Handler4 e req resp w = ((Some (response_of w rec resp), false), w')
    ∧ Recordsv4 (plugin w') = <[mac := rec]> (Recordsv4 (plugin w))
    ∧ LeaseTime (plugin w') = LeaseTime (plugin w)
    ∧ consulKVPrefix (plugin w') = consulKVPrefix (plugin w)
    ∧ consulURL (plugin w') = consulURL (plugin w)
    ∧ allocator (plugin w') = allocator (plugin w)
    ∧ consul w'
      = snd (Consul.Upsert (store_accepts e) (consulKVPrefix (plugin w)) mac
               rec (consul w))
    ∧ allocations w' = allocations w
    ∧ ∃ fresh, journal w' = fresh ++ journal w
        ∧ existsb is_Errorf fresh = negb (store_accepts e).
Proof.
  intros mac rec Hsome Hdue. run_handler. fold mac. rewrite Hsome.
  unfold renewal_due in Hdue. rewrite Hdue. cbn.
  destruct (store_accepts e); cbn.
  - eexists. split; [reflexivity |]. cbn. repeat split.
    eexists [_]. split; reflexivity.
  - eexists. split; [reflexivity |]. cbn. repeat split.
    eexists [_; _]. split; reflexivity.
Qed.

(** A record, not due: nothing changes but the log. *)
Lemma Handler4_keep w e req resp r :
  let mac := HardwareAddr_String (ClientHWAddr req) in
  Recordsv4 (plugin w) !! mac = Some r →
  renewal_due w e r = false →
  ∃ w', Handler4 e req resp w = ((Some (response_of w r resp), false), w')
    ∧ plugin w' = plugin w
    ∧ consul w' = consul w
    ∧ allocations w' = allocations w
    ∧ ∃ fresh, journal w' = fresh ++ journal w
        ∧ existsb is_Errorf fresh = false.
Proof.
  intros mac Hsome Hdue. run_handler. fold mac. rewrite Hsome.
  unfold renewal_due in Hdue. rewrite Hdue. cbn.
  eexists. split; [reflexivity |]. cbn. repeat split.
  eexists [_]. split; reflexivity.
Qed.

End HandlerPaths.

(** ** The store *)

Lemma Consul_lookup_Upsert accepted p h r s p' h' :
  Consul.lookup p' h' (snd (Consul.Upsert accepted p h r s))
  = if accepted && bool_decide (p = p') && bool_decide (h = h')
    then Some r else Consul.lookup p' h' s.
Proof.
  unfold Consul.Upsert, Consul.lookup, Consul.namespace.
  destruct accepted; cbn; [| reflexivity].
  destruct (bool_decide_reflect (p = p')) as [-> | Hp]; cbn.
  - rewrite lookup_insert_eq. cbn.
    destruct (bool_decide_reflect (h = h')) as [-> | Hh].
    + apply lookup_insert_eq.
    + by rewrite lookup_insert_ne.
  - by rewrite lookup_insert_ne.
Qed.

Lemma Consul_requests_Upsert accepted p h r s :
  Consul.requests (snd (Consul.Upsert accepted p h r s))
  = (p, h, r) :: Consul.requests s.
Proof. unfold Consul.Upsert. destruct accepted; reflexivity. Qed.

(** The scenario worlds are the ones setup builds. *)
Example setup_world_aa :
  setupConsulRange true Scenario.store_aa (Scenario.args "1h")
  = inl (Scenario.world_aa Hour).
Proof. vm_compute. reflexivity. Qed.

Example setup_world_empty :
  setupConsulRange true Scenario.empty_store (Scenario.args "1h")
  = inl (Scenario.world_empty Hour).
Proof. vm_compute. reflexivity. Qed.

(** The example of the spec: [aa], [bb], [cc] get the three addresses
    and a lifetime of one hour, [dd] gets nothing, and [aa], asking again
    at the same second and two seconds later, gets its address again; the
    first of the two leaves its durable expiry alone, the second moves it. *)
Example scenario_of_the_spec :
  let calls :=
    Scenario.calls_abc
      ++ [Scenario.lease_call 5 true Scenario.hw_dd "delta";
          Scenario.lease_call 5 true Scenario.hw_aa "alpha";
          Scenario.lease_call 7 true Scenario.hw_aa "alpha"] in
  let brief (out : option DHCPv4 * bool) :=
    (λ r, (YourIPAddr r, IPAddressLeaseTime r)) <$> out.1 in
  brief <$> outcomes calls (Scenario.world_empty Hour)
  = [Some (Scenario.ip2, Some Hour); Some (Scenario.ip3, Some Hour);
     Some (Scenario.ip4, Some Hour); None;
     Some (Scenario.ip2, Some Hour); Some (Scenario.ip2, Some Hour)]
  ∧ Expires <$> durable (after (take 5 calls) (Scenario.world_empty Hour)) "aa"
    = Some 3605
  ∧ Expires <$> durable (after calls (Scenario.world_empty Hour)) "aa"
    = Some 3607.
Proof. vm_compute. repeat split. Qed.

Example setup_world_aa_1500ms :
  setupConsulRange true Scenario.store_aa (Scenario.args "1500ms")
  = inl (Scenario.world_aa (1500 * Millisecond)).
Proof. vm_compute. reflexivity. Qed.

(** ** Renewal threshold *)

Section Renewal.

Context {A : Type} `{Allocator A}.

Implicit Types (w : World A) (req resp : DHCPv4) (r : Record_).


End Renewal.



(** ** One call, whatever its path *)

Ltac handler_paths w e req resp Hpath :=
  let r := fresh "r0" in
  let Hl := fresh "Hlookup" in
  let Hd := fresh "Hdue" in
  let Ha := fresh "Halloc" in
  let a' := fresh "a'" in
  let ip := fresh "ip" in
  let err := fresh "err" in
  destruct (Recordsv4 (plugin w) !! HardwareAddr_String (ClientHWAddr req))
    as [r|] eqn:Hl;
  [ destruct (renewal_due w e r) eqn:Hd;
    [ pose proof (Handler4_renew w e req resp r Hl Hd) as Hpath
    | pose proof (Handler4_keep w e req resp r Hl Hd) as Hpath ]
  | destruct (Allocate (allocator (plugin w)) None) as [a' [ip|err]] eqn:Ha;
    [ pose proof (Handler4_new w e req resp a' ip Hl Ha) as Hpath
    | pose proof (Handler4_exhausted w e req resp a' err Hl Ha) as Hpath ] ];
  cbv zeta in Hpath.

Section OneCall.

Context {A : Type} `{Allocator A}.

Implicit Types (w : World A) (e : Env) (req resp : DHCPv4) (r : Record_).

Lemma PluginState_eq (p q : PluginState A) :
  Recordsv4 p = Recordsv4 q → LeaseTime p = LeaseTime q →
  allocator p = allocator q → consulURL p = consulURL q →
  consulKVPrefix p = consulKVPrefix q → p = q.
Proof. destruct p, q. cbn. by intros -> -> -> -> ->. Qed.

(** The configuration of the plugin never changes. *)
Lemma Handler4_configuration w e req resp :
  let w' := snd (Handler4 e req resp w) in
  LeaseTime (plugin w') = LeaseTime (plugin w)
  ∧ consulKVPrefix (plugin w') = consulKVPrefix (plugin w)
  ∧ consulURL (plugin w') = consulURL (plugin w).
Proof.
  handler_paths w e req resp Hpath.
  - destruct Hpath as (w' & -> & _ & ? & ? & ? & _). cbn. tauto.
  - destruct Hpath as (w' & -> & Hp & _). cbn. rewrite Hp. tauto.
  - destruct Hpath as (w' & -> & _ & ? & ? & ? & _). cbn. tauto.
  - destruct Hpath as (w' & -> & _ & ? & ? & ? & _). cbn. tauto.
Qed.

(** What a call does to the record of any hardware identifier [h]: it
    creates it, or keeps its address and moves its expiry forward (if the
    clock does not run backwards during the call), or leaves it alone. *)
Lemma Handler4_table w e req resp h :
  let w' := snd (Handler4 e req resp w) in
  match Recordsv4 (plugin w) !! h with
  | Some r =>
      ∃ r', Recordsv4 (plugin w') !! h = Some r' ∧ IP_ r' = IP_ r
        ∧ (now_first e <= now_second e → Expires r <= Expires r')
  | None =>
      Recordsv4 (plugin w') !! h = None
      ∨ h = HardwareAddr_String (ClientHWAddr req)
  end.
Proof.
  cbv zeta. set (mac := HardwareAddr_String (ClientHWAddr req)).
  handler_paths w e req resp Hpath; fold mac in Hpath, Hlookup.
  - destruct Hpath as (w' & -> & Htab & _). cbn. rewrite Htab.
    destruct (decide (h = mac)) as [-> | Hne].
    + rewrite Hlookup, lookup_insert_eq. eexists. split; [reflexivity |].
      split; [reflexivity |]. intros Hclock.
      apply (renewed_expiry_not_earlier _ _ _ _ Hclock Hdue).
    + rewrite lookup_insert_ne by done.
      destruct (Recordsv4 (plugin w) !! h); eauto.
      eexists; split; [reflexivity |]. split; [reflexivity | lia].
  - destruct Hpath as (w' & -> & Hp & _). cbn. rewrite Hp.
    destruct (Recordsv4 (plugin w) !! h); eauto.
    eexists; split; [reflexivity |]. split; [reflexivity | lia].
  - destruct Hpath as (w' & -> & Htab & _). cbn. rewrite Htab.
    destruct (decide (h = mac)) as [-> | Hne].
    + rewrite Hlookup. by right.
    + rewrite lookup_insert_ne by done.
      destruct (Recordsv4 (plugin w) !! h); eauto.
      eexists; split; [reflexivity |]. split; [reflexivity | lia].
  - destruct Hpath as (w' & -> & Htab & _). cbn. rewrite Htab.
    destruct (Recordsv4 (plugin w) !! h); eauto.
    eexists; split; [reflexivity |]. split; [reflexivity | lia].
Qed.

(** A successful call answers with the address of the client's record in
    the table it leaves. *)
Lemma Handler4_answer w e req resp resp' w' :
  Handler4 e req resp w = ((Some resp', false), w') →
  IPAddressLeaseTime resp' = Some (Duration_Round (LeaseTime (plugin w)) Second)
  ∧ ∃ r, Recordsv4 (plugin w') !! HardwareAddr_String (ClientHWAddr req)
         = Some r
      ∧ YourIPAddr resp' = IP_ r.
Proof.
  intros Hrun. set (mac := HardwareAddr_String (ClientHWAddr req)).
  handler_paths w e req resp Hpath; fold mac in Hpath, Hlookup;
    destruct Hpath as (w1 & Hrun1 & Htab & _);
    rewrite Hrun in Hrun1; inversion Hrun1; subst; clear Hrun1;
    (split; [reflexivity |]).
  - eexists. rewrite Htab, lookup_insert_eq. split; reflexivity.
  - eexists. rewrite Htab. split; [exact Hlookup | reflexivity].
  - eexists. rewrite Htab, lookup_insert_eq. split; reflexivity.
Qed.

End OneCall.

(** ** Runs *)

Section Runs.

Context {A : Type} `{Allocator A}.

Implicit Types (w : World A) (calls : list Call) (c : Call).

Lemma serve_cons c calls w :
  serve (c :: calls) w
  = (fst (handle c w) :: outcomes calls (snd (handle c w)),
     after calls (snd (handle c w))).
Proof.
  unfold after, outcomes, handle. cbn. unfold mbind, M_bind, mret, M_ret.
  destruct (Handler4 _ _ _ w) as [out w1]. cbn.
  destruct (serve calls w1) as [outs w2]. reflexivity.
Qed.

Lemma after_nil w : after [] w = w.
Proof. reflexivity. Qed.

Lemma after_cons c calls w :
  after (c :: calls) w = after calls (snd (handle c w)).
Proof. unfold after at 1. by rewrite serve_cons. Qed.

Lemma outcomes_cons c calls w :
  outcomes (c :: calls) w
  = fst (handle c w) :: outcomes calls (snd (handle c w)).
Proof. unfold outcomes at 1. by rewrite serve_cons. Qed.


Lemma outcomes_length calls w : length (outcomes calls w) = length calls.
Proof.
  revert w. induction calls as [| c calls IH]; intros w; [reflexivity |].
  rewrite outcomes_cons. cbn. by rewrite IH.
Qed.

Lemma after_configuration calls w :
  LeaseTime (plugin (after calls w)) = LeaseTime (plugin w)
  ∧ consulKVPrefix (plugin (after calls w)) = consulKVPrefix (plugin w).
Proof.
  revert w. induction calls as [| c calls IH]; intros w; [done |].
  rewrite after_cons.
  destruct (IH (snd (handle c w))) as [-> ->].
  pose proof (Handler4_configuration w (call_env c) (call_req c) (call_resp c))
    as Hc. cbv zeta in Hc. unfold handle. tauto.
Qed.

(** No record is ever deleted, no address ever changed, and (on a clock
    that does not run backwards) no expiry ever moved back. *)
Lemma after_table calls w h r :
  Recordsv4 (plugin w) !! h = Some r →
  ∃ r', Recordsv4 (plugin (after calls w)) !! h = Some r'
    ∧ IP_ r' = IP_ r
    ∧ (Forall clock_ok calls → Expires r <= Expires r').
Proof.
  revert w r. induction calls as [| c calls IH]; intros w r Hr.
  - exists r. rewrite after_nil. split; [done |]. split; [done | lia].
  - rewrite after_cons.
    pose proof (Handler4_table w (call_env c) (call_req c) (call_resp c) h)
      as Hstep. cbv zeta in Hstep. rewrite Hr in Hstep.
    destruct Hstep as (r1 & Hr1 & Hip1 & Hexp1).
    destruct (IH _ _ Hr1) as (r2 & Hr2 & Hip2 & Hexp2).
    exists r2. split; [exact Hr2 |]. split; [congruence |].
    intros Hclock. inversion Hclock; subst.
    specialize (Hexp1 ltac:(assumption)). specialize (Hexp2 ltac:(assumption)).
    lia.
Qed.

End Runs.

(** ** The range allocator keeps the allocator's contract *)

Lemma RangeAllocator_contract : AllocatorContract RangeAllocator.allocated.
Proof.
  split.
  - intros a hint a' ip Hal. cbn in Hal. unfold RangeAllocator.allocate in Hal.
    destruct (List.find _ _) as [ip'|] eqn:Hfind; [| discriminate].
    inversion Hal; subst; clear Hal.
    apply find_some in Hfind as [_ Hfree].
    unfold RangeAllocator.allocated. split; [| by left].
    intros Hin. unfold RangeAllocator.is_free in Hfree.
    apply negb_true_iff in Hfree.
    assert (Hex : existsb (Z.eqb ip) (RangeAllocator.taken a) = true).
    { apply existsb_exists. exists ip. split; [exact Hin | apply Z.eqb_refl]. }
    congruence.
  - intros a hint a' r ip Hal Hin. cbn in Hal.
    unfold RangeAllocator.allocate in Hal.
    destruct (List.find _ _) as [ip'|]; inversion Hal; subst; clear Hal.
    + by right.
    + exact Hin.
  - intros a hint a' e Hal. cbn in Hal. unfold RangeAllocator.allocate in Hal.
    destruct (List.find _ _) as [ip'|]; inversion Hal; subst. reflexivity.
Qed.

Lemma GoRuntime_range_visits_all : RangeVisitsAll.
Proof. intros m. reflexivity. Qed.

(** ** Lease lifetime *)

Section Lifetime.

Context {A : Type} `{Allocator A}.

Implicit Types (w : World A) (e : Env) (req resp : DHCPv4).


End Lifetime.



(** ** Allocation failure *)

Section Exhaustion.

Context {A : Type} `{Allocator A}.

Implicit Types (w : World A) (e : Env) (req resp : DHCPv4).

(** C2. The client has no record and the allocator fails to allocate a
    fresh address: the call returns no response (and stops the handler
    chain), creates no record, and leaves the plugin (lease table and
    allocator) and the durable store as they were, no persistence call
    being sent. That the failed allocation leaves the allocator itself
    unchanged is the allocator's contract. *)
Theorem allocation_failure_mutates_nothing
    (allocated : A → IP → Prop) (HC : AllocatorContract allocated)
    w e req resp a' err :
  Recordsv4 (plugin w) !! HardwareAddr_String (ClientHWAddr req) = None →
  Allocate (allocator (plugin w)) None = (a', inr err) →
  ∃ w', Handler4 e req resp w = ((None, true), w')
    ∧ Recordsv4 (plugin w') !! HardwareAddr_String (ClientHWAddr req) = None
    ∧ plugin w' = plugin w
    ∧ consul w' = consul w.
Proof.
  intros Hnone Hal.
  destruct (Handler4_exhausted w e req resp a' err Hnone Hal)
    as (w' & Hrun & Htab & Hlt & Hpre & Hurl & Ha & Hst & _).
  exists w'. split; [exact Hrun |].
  split; [by rewrite Htab |]. split; [| exact Hst].
  apply PluginState_eq; try assumption.
  rewrite Ha. apply (allocate_failure_pure _ HC _ _ _ _ Hal).
Qed.

End Exhaustion.

(** An instance of [allocation_failure_mutates_nothing]: the three
    addresses of the range are leased, and [dd] asks for one. *)
Lemma allocation_failure_witness :
  ∃ w', Handler4 (Scenario.at_second 9 true)
          (Scenario.request Scenario.hw_dd "delta")
          (Scenario.reply Scenario.hw_dd) Scenario.world_full
        = ((None, true), w')
    ∧ Recordsv4 (plugin w') !! "dd" = None
    ∧ plugin w' = plugin Scenario.world_full
    ∧ consul w' = consul Scenario.world_full.
Proof.
  refine (allocation_failure_mutates_nothing RangeAllocator.allocated
            RangeAllocator_contract Scenario.world_full
            (Scenario.at_second 9 true)
            (Scenario.request Scenario.hw_dd "delta")
            (Scenario.reply Scenario.hw_dd)
            (allocator (plugin Scenario.world_full))
            "no address available" _ _).
  - vm_compute. reflexivity.
  - vm_compute. reflexivity.
Defined.

(** ** Persistence failure *)

Section PersistenceFailure.

Context {A : Type} `{Allocator A}.

Implicit Types (w : World A) (req resp : DHCPv4).


End PersistenceFailure.


(** ** Stability of the address *)

Section Stability.

Context {A : Type} `{Allocator A}.

Implicit Types (w : World A) (e : Env) (req resp : DHCPv4) (r : Record_).

(** A client with a record is answered with the address of the record,
    and the record keeps it. *)
Lemma Handler4_existing w e req resp r :
  let mac := HardwareAddr_String (ClientHWAddr req) in
  Recordsv4 (plugin w) !! mac = Some r →
  ∃ resp' w' r',
    Handler4 e req resp w = ((Some resp', false), w')
    ∧ YourIPAddr resp' = IP_ r
    ∧ Recordsv4 (plugin w') !! mac = Some r'
    ∧ IP_ r' = IP_ r.
Proof.
  intros mac Hsome.
  destruct (renewal_due w e r) eqn:Hdue.
  - destruct (Handler4_renew w e req resp r Hsome Hdue)
      as (w' & Hrun & Htab & _). fold mac in Htab.
    eexists _, w', _. split; [exact Hrun |]. split; [reflexivity |].
    split; [rewrite Htab; apply lookup_insert_eq | reflexivity].
  - destruct (Handler4_keep w e req resp r Hsome Hdue)
      as (w' & Hrun & Hp & _).
    eexists _, w', r. split; [exact Hrun |]. split; [reflexivity |].
    split; [by rewrite Hp | reflexivity].
Qed.

(** C6. A client that has a record is answered with the address of that
    record, and the call leaves the record with the same address (only
    expiry and hostname can differ). Whatever calls the server handles
    next, for this client or others, a later call of the same client is
    answered with the same address again. *)
Theorem renewal_keeps_address w e req resp r calls e2 req2 resp2 :
  let mac := HardwareAddr_String (ClientHWAddr req) in
  Recordsv4 (plugin w) !! mac = Some r →
  ClientHWAddr req2 = ClientHWAddr req →
  ∃ resp1 w1 r1 resp2' w2 r2,
    Handler4 e req resp w = ((Some resp1, false), w1)
    ∧ YourIPAddr resp1 = IP_ r
    ∧ Recordsv4 (plugin w1) !! mac = Some r1 ∧ IP_ r1 = IP_ r
    ∧ Handler4 e2 req2 resp2 (after calls w1) = ((Some resp2', false), w2)
    ∧ YourIPAddr resp2' = YourIPAddr resp1
    ∧ Recordsv4 (plugin w2) !! mac = Some r2 ∧ IP_ r2 = IP_ r.
Proof.
  intros mac Hsome Hsame.
  destruct (Handler4_existing w e req resp r Hsome)
    as (resp1 & w1 & r1 & Hrun1 & Hip1 & Hr1 & Hsame1). fold mac in Hr1.
  destruct (after_table calls w1 mac r1 Hr1) as (rm & Hrm & Hipm & _).
  assert (Hrm' : Recordsv4 (plugin (after calls w1))
                  !! HardwareAddr_String (ClientHWAddr req2) = Some rm)
    by (rewrite Hsame; exact Hrm).
  destruct (Handler4_existing (after calls w1) e2 req2 resp2 rm Hrm')
    as (resp2' & w2 & r2 & Hrun2 & Hip2 & Hr2 & Hsame2).
  rewrite Hsame in Hr2. fold mac in Hr2.
  exists resp1, w1, r1, resp2', w2, r2.
  repeat split; try assumption; congruence.
Qed.

End Stability.

(** An instance of [renewal_keeps_address]: [aa] holds 10.0.0.2; it asks
    at second 7, the others lease, and it asks again two hours later. *)
Lemma renewal_keeps_address_witness :
  ∃ resp1 w1 resp2 w2,
    Handler4 (Scenario.at_second 7 true)
      (Scenario.request Scenario.hw_aa "alpha")
      (Scenario.reply Scenario.hw_aa) (Scenario.world_aa Hour)
    = ((Some resp1, false), w1)
    ∧ Handler4 (Scenario.at_second 7200 true)
        (Scenario.request Scenario.hw_aa "alpha2")
        (Scenario.reply Scenario.hw_aa) (after Scenario.calls_abc w1)
      = ((Some resp2, false), w2)
    ∧ YourIPAddr resp1 = Scenario.ip2
    ∧ YourIPAddr resp2 = Scenario.ip2.
Proof.
  destruct (renewal_keeps_address (Scenario.world_aa Hour)
              (Scenario.at_second 7 true)
              (Scenario.request Scenario.hw_aa "alpha")
              (Scenario.reply Scenario.hw_aa) Scenario.rec_aa
              Scenario.calls_abc (Scenario.at_second 7200 true)
              (Scenario.request Scenario.hw_aa "alpha2")
              (Scenario.reply Scenario.hw_aa) eq_refl eq_refl)
    as (resp1 & w1 & r1 & resp2 & w2 & r2 & H1 & Hip1 & _ & _ & H2 & Hip2 & _).
  exists resp1, w1, resp2, w2.
  split; [exact H1 |]. split; [exact H2 |].
  split; [exact Hip1 | by rewrite Hip2].
Defined.

(** ** No validation of the hardware address *)

Section NoValidation.

Context {A : Type} `{Allocator A}.

Implicit Types (w : World A) (e : Env) (req resp : DHCPv4).

(** C10. Whatever the client hardware address of the request, the empty
    and the all-zero address included, the handler looks its string
    rendering up in the lease table and, finding no record, leases the
    address the allocator returns and files the record under that
    rendering: the empty string for the empty address,
    [00:00:00:00:00:00] for six zero bytes. *)
Theorem hardware_address_is_not_validated w e req resp a' ip :
  let mac := HardwareAddr_String (ClientHWAddr req) in
  Recordsv4 (plugin w) !! mac = None →
  Allocate (allocator (plugin w)) None = (a', inl ip) →
  (∃ resp' w',
     Handler4 e req resp w = ((Some resp', false), w')
     ∧ YourIPAddr resp' = ip
     ∧ Recordsv4 (plugin w') !! mac = Some (new_record w e req ip)
     ∧ allocator (plugin w') = a')
  ∧ (ClientHWAddr req = [] → mac = ""%string)
  ∧ (ClientHWAddr req = [x00; x00; x00; x00; x00; x00] →
     mac = "00:00:00:00:00:00"%string).
Proof.
  intros mac Hnone Hal. split; [| split].
  - destruct (Handler4_new w e req resp a' ip Hnone Hal)
      as (w' & Hrun & Htab & _ & _ & _ & Ha & _). fold mac in Htab.
    eexists _, w'. split; [exact Hrun |]. split; [reflexivity |].
    split; [rewrite Htab; apply lookup_insert_eq | exact Ha].
  - unfold mac. intros ->. reflexivity.
  - unfold mac. intros ->. reflexivity.
Qed.

End NoValidation.

(** An instance of [hardware_address_is_not_validated]: a request with
    an empty hardware address gets the first address of the pool. *)
Lemma hardware_address_witness :
  ∃ resp' w',
    Handler4 (Scenario.at_second 5 true) (Scenario.request [] "")
      (Scenario.reply []) (Scenario.world_empty Hour)
    = ((Some resp', false), w')
    ∧ YourIPAddr resp' = Scenario.ip2
    ∧ is_Some (Recordsv4 (plugin w') !! ""%string).
Proof.
  assert (Hal : Allocate (allocator (plugin (Scenario.world_empty Hour))) None
                = (RangeAllocator.mk Scenario.ip2 Scenario.ip4 [Scenario.ip2],
                   inl Scenario.ip2))
    by (vm_compute; reflexivity).
  destruct (hardware_address_is_not_validated (Scenario.world_empty Hour)
              (Scenario.at_second 5 true) (Scenario.request [] "")
              (Scenario.reply []) _ _ eq_refl Hal)
    as ((resp' & w' & Hrun & Hip & Htab & _) & _).
  exists resp', w'. split; [exact Hrun |]. split; [exact Hip |].
  eexists. exact Htab.
Defined.

(** ** Setup: argument validation *)

Section Validation.

Context {A : Type} `{Allocator A} `{Runtime A}.

(** C5. [setupConsulRange] returns an error, and so no handler, whenever
    a constraint on its parameters is violated: fewer than five
    arguments, an empty store address, an empty key prefix, a range start
    or a range end that [net.ParseIP] and [To4] do not read as an IPv4
    address, a range start that is numerically greater than or equal to
    the range end, or a lease duration that [time.ParseDuration] does not
    read. The error is one of the configuration errors. *)
Theorem setup_rejects_invalid_parameters reachable store (args : list string) :
  (length args < 5)%nat
  ∨ args !! 0%nat = Some ""%string
  ∨ args !! 1%nat = Some ""%string
  ∨ (∃ s, args !! 2%nat = Some s ∧ net_ParseIP_To4 s = None)
  ∨ (∃ s, args !! 3%nat = Some s ∧ net_ParseIP_To4 s = None)
  ∨ (∃ s1 s2 ip1 ip2,
        args !! 2%nat = Some s1 ∧ args !! 3%nat = Some s2
        ∧ net_ParseIP_To4 s1 = Some ip1 ∧ net_ParseIP_To4 s2 = Some ip2
        ∧ BigEndian_Uint32 ip1 >= BigEndian_Uint32 ip2)
  ∨ (∃ s err, args !! 4%nat = Some s ∧ time_ParseDuration s = inr err) →
  ∃ err, setupConsulRange reachable store args = inr err
    ∧ is_configuration_error err = true.
Proof.
  intros Hbad. unfold setupConsulRange.
  enough (∃ err, configure reachable store args = inr err
            ∧ is_configuration_error err = true) as (err & -> & Herr)
    by eauto.
  destruct args as [| a0 [| a1 [| a2 [| a3 [| a4 rest]]]]];
    try (eexists; split; reflexivity).
  unfold configure.
  destruct (String.eqb_spec a0 ""); [eexists; split; reflexivity |].
  destruct (String.eqb_spec a1 ""); [eexists; split; reflexivity |].
  destruct (net_ParseIP_To4 a2) as [ipRangeStart|] eqn:Hstart;
    [| eexists; split; reflexivity].
  destruct (net_ParseIP_To4 a3) as [ipRangeEnd|] eqn:Hend;
    [| eexists; split; reflexivity].
  destruct (BigEndian_Uint32 ipRangeStart >=? BigEndian_Uint32 ipRangeEnd)
    eqn:Hge; [eexists; split; reflexivity |].
  destruct (bitmap_NewIPv4Allocator ipRangeStart ipRangeEnd) as [alloc|err];
    [| eexists; split; reflexivity].
  destruct (time_ParseDuration a4) as [leaseTime|err] eqn:Hlease;
    [| eexists; split; reflexivity].
  exfalso.
  destruct Hbad as [Hlen | [Hurl | [Hpre | [Hs | [He | [Hord | Hdur]]]]]].
  - cbn in Hlen. lia.
  - cbn in Hurl. congruence.
  - cbn in Hpre. congruence.
  - destruct Hs as (s & Hs & Hnone). cbn in Hs. congruence.
  - destruct He as (s & Hs & Hnone). cbn in Hs. congruence.
  - destruct Hord as (s1 & s2 & ip1 & ip2 & Hs1 & Hs2 & Hp1 & Hp2 & Hord).
    cbn in Hs1, Hs2.
    assert (ip1 = ipRangeStart) by congruence.
    assert (ip2 = ipRangeEnd) by congruence. subst.
    rewrite Z.geb_leb in Hge. apply Z.leb_gt in Hge. lia.
  - destruct Hdur as (s & err & Hs & Herr). cbn in Hs. congruence.
Qed.

End Validation.

(** An instance of [setup_rejects_invalid_parameters]: a range that ends
    before it starts. *)
Lemma setup_rejects_witness :
  ∃ err,
    setupConsulRange true Scenario.empty_store
      ["http://consul:8500"; "dhcp"; "10.0.0.4"; "10.0.0.2"; "1h"]%string
    = inr err
    ∧ is_configuration_error err = true.
Proof.
  apply setup_rejects_invalid_parameters.
  do 5 right. left.
  exists "10.0.0.4"%string, "10.0.0.2"%string, Scenario.ip4, Scenario.ip2.
  vm_compute. repeat split; discriminate.
Defined.

(** ** Setup: startup recovery *)

Ltac run_loop :=
  unfold mbind, M_bind, mret, M_ret, allocator_Allocate; cbn.

Section Recovery.

Context {A : Type} `{Allocator A} `{Runtime A}.

Implicit Types (w : World A) (entries : list (string * Record_)).

Lemma reallocate_cons entries w k v :
  reallocate ((k, v) :: entries) w
  = let '(a', r) := Allocate (allocator (plugin w)) (Some (IP_ v)) in
    let w1 :=
      mkWorld
        (mkPluginState (Recordsv4 (plugin w)) (LeaseTime (plugin w)) a'
           (consulURL (plugin w)) (consulKVPrefix (plugin w)))
        (consul w) (journal w) ((Some (IP_ v), r) :: allocations w) in
    match r with
    | inr err => (Some (FailedToReallocate (IP_ v) err), w1)
    | inl ip =>
        if negb (ip =? IP_ v) then (Some (DidNotReallocate (IP_ v) ip), w1)
        else reallocate entries w1
    end.
Proof.
  cbn [reallocate]. run_loop.
  destruct (Allocate (allocator (plugin w)) (Some (IP_ v))) as [a' [ip|err]];
    [| reflexivity].
  destruct (negb (ip =? IP_ v)); reflexivity.
Qed.

(** The loop touches nothing but the allocator. *)
Lemma reallocate_frame entries w :
  let w1 := snd (reallocate entries w) in
  Recordsv4 (plugin w1) = Recordsv4 (plugin w)
  ∧ LeaseTime (plugin w1) = LeaseTime (plugin w)
  ∧ consulKVPrefix (plugin w1) = consulKVPrefix (plugin w)
  ∧ consul w1 = consul w.
Proof.
  revert w. induction entries as [| [k v] entries IH]; intros w; [done |].
  cbv zeta. rewrite reallocate_cons.
  destruct (Allocate _ _) as [a' [ip|err]]; [| done].
  destruct (negb (ip =? IP_ v)); [done |].
  specialize (IH (mkWorld
        (mkPluginState (Recordsv4 (plugin w)) (LeaseTime (plugin w)) a'
           (consulURL (plugin w)) (consulKVPrefix (plugin w)))
        (consul w) (journal w) ((Some (IP_ v), inl ip) :: allocations w))).
  exact IH.
Qed.

(** The calls the loop makes: one per entry, in order, each asking for
    the address of its entry, up to the first that is not answered with
    that address. *)
Lemma reallocate_calls entries w :
  let result := fst (reallocate entries w) in
  let w1 := snd (reallocate entries w) in
  ∃ made, allocations w1 = rev made ++ allocations w
    ∧ match result with
      | None => made = exact <$> entries
      | Some e =>
          is_consistency_error e = true
          ∧ ∃ n entry res,
              entries !! n = Some entry
              ∧ made = (exact <$> take n entries)
                         ++ [(Some (IP_ entry.2), res)]
              ∧ res ≠ inl (IP_ entry.2)
      end.
Proof.
  revert w. induction entries as [| [k v] entries IH]; intros w.
  - exists []. split; reflexivity.
  - cbv zeta. rewrite reallocate_cons.
    destruct (Allocate _ _) as [a' [ip|err]].
    + destruct (Z.eqb_spec ip (IP_ v)) as [-> | Hne]; cbn [negb].
      * match goal with |- context [reallocate entries ?w1] =>
          destruct (IH w1) as (made & Hmade & Hres) end.
        exists (exact (k, v) :: made). cbn in Hmade. split.
        { rewrite Hmade. cbn. by rewrite <- app_assoc. }
        destruct (fst (reallocate entries _)) as [e|].
        -- destruct Hres as (He & n & entry & res & Hn & Hm & Hbad).
           split; [exact He |]. exists (S n), entry, res.
           split; [exact Hn |]. split; [by rewrite Hm | exact Hbad].
        -- by rewrite Hres.
      * exists [(Some (IP_ v), inl ip)]. split; [reflexivity |].
        split; [reflexivity |]. exists 0%nat, (k, v), (inl ip).
        split; [reflexivity |]. split; [reflexivity |].
        cbn. intros Heq. apply Hne. by inversion Heq.
    + exists [(Some (IP_ v), inr err)]. split; [reflexivity |].
      split; [reflexivity |]. exists 0%nat, (k, v), (inr err).
      split; [reflexivity |]. split; [reflexivity |]. discriminate.
Qed.

(** Under the allocator's contract, a loop that ends well has met
    pairwise distinct addresses, all free before and all taken after. *)
Lemma reallocate_success (allocated : A → IP → Prop)
    (HC : AllocatorContract allocated) entries w w1 :
  reallocate entries w = (None, w1) →
  NoDup ((λ entry, IP_ entry.2) <$> entries)
  ∧ (∀ entry, entry ∈ entries →
       ¬ allocated (allocator (plugin w)) (IP_ entry.2)
       ∧ allocated (allocator (plugin w1)) (IP_ entry.2))
  ∧ (∀ ip, allocated (allocator (plugin w)) ip →
           allocated (allocator (plugin w1)) ip).
Proof.
  revert w. induction entries as [| [k v] entries IH]; intros w Hrun.
  - inversion Hrun; subst. split; [constructor |].
    split; [intros entry Hin; inversion Hin | done].
  - rewrite reallocate_cons in Hrun.
    destruct (Allocate _ _) as [a' [ip|err]] eqn:Hal; [| discriminate].
    destruct (Z.eqb_spec ip (IP_ v)) as [-> | Hne]; cbn [negb] in Hrun;
      [| discriminate].
    apply IH in Hrun as (Hnodup & Hall & Hmono). cbn in Hall, Hmono.
    destruct (allocate_fresh _ HC _ _ _ _ Hal) as [Hfree Htaken].
    pose proof (λ ip, allocate_keeps _ HC _ _ _ _ ip Hal) as Hkeeps.
    split; [| split].
    + cbn. constructor; [| exact Hnodup].
      intros Hin. apply list_elem_of_fmap in Hin as (entry & Heq & Hin).
      destruct (Hall entry Hin) as [Hnot _]. apply Hnot.
      cbn in Heq. rewrite <- Heq. exact Htaken.
    + intros entry Hin. apply elem_of_cons in Hin as [-> | Hin].
      * split; [exact Hfree | by apply Hmono].
      * destruct (Hall entry Hin) as [Hnot Hyes]. split; [| exact Hyes].
        intros Hold. apply Hnot. by apply (Hkeeps _ Hold).
    + intros ip Hold. apply Hmono. by apply (Hkeeps _ Hold).
Qed.

(** What [configure] returns. *)
Lemma configure_world reachable store args w0 :
  configure reachable store args = inl w0 →
  Recordsv4 (plugin w0) = Consul.LoadAll (consulKVPrefix (plugin w0)) store
  ∧ consul w0 = store
  ∧ allocations w0 = [].
Proof.
  unfold configure. intros Hcfg.
  repeat (match type of Hcfg with
          | context [match ?x with _ => _ end] => destruct x eqn:?
          end; try discriminate).
  inversion Hcfg; subst; clear Hcfg. cbn.
  unfold loadRecords in *.
  destruct reachable; [| discriminate].
  match goal with Hl : inl _ = inl _ |- _ => inversion Hl; subst end.
  done.
Qed.

(** What a successful setup went through. *)
Lemma setup_success reachable store args w1 :
  setupConsulRange reachable store args = inl w1 →
  ∃ w0, configure reachable store args = inl w0
    ∧ reallocate (range_Recordsv4 (Recordsv4 (plugin w0))) w0 = (None, w1).
Proof.
  unfold setupConsulRange. intros Hsetup.
  destruct (configure reachable store args) as [w0|e]; [| discriminate].
  exists w0. split; [reflexivity |].
  destruct (reallocate _ w0) as [[e|] w']; [discriminate |].
  by inversion Hsetup.
Qed.

End Recovery.

Section StartupRecovery.

Context {A : Type} `{Allocator A} `{Runtime A}.

Implicit Types (w : World A).

Lemma range_loaded (Hrange : RangeVisitsAll) (m : gmap string Record_) h r :
  (h, r) ∈ range_Recordsv4 m ↔ m !! h = Some r.
Proof. rewrite (Hrange m). apply elem_of_map_to_list. Qed.

(** C4. The records are loaded ([configure] has returned the world
    [w0]); [made] lists the calls the recovery loop then makes to the
    allocator, oldest first. Every call asks for the address of a loaded
    record, never for any free address. If every call returned the
    address it asked for, setup succeeds, and then the allocator has been
    asked for the address of every loaded record and has returned it. If
    a call reported an error or returned another address, setup returns
    an error, one of the startup consistency errors, and no handler. *)
Theorem startup_recovery_reserves_exact_addresses
    (Hrange : RangeVisitsAll) reachable store args w0 :
  configure reachable store args = inl w0 →
  let loop := reallocate (range_Recordsv4 (Recordsv4 (plugin w0))) w0 in
  let made := rev (allocations (snd loop)) in
  (∀ hint res, (hint, res) ∈ made →
     ∃ h r, Recordsv4 (plugin w0) !! h = Some r ∧ hint = Some (IP_ r))
  ∧ ((∀ hint res, (hint, res) ∈ made → ∃ ip, hint = Some ip ∧ res = inl ip) →
     setupConsulRange reachable store args = inl (snd loop)
     ∧ ∀ h r, Recordsv4 (plugin w0) !! h = Some r →
              (Some (IP_ r), inl (IP_ r)) ∈ made)
  ∧ ((∃ hint res, (hint, res) ∈ made ∧ ∀ ip, hint = Some ip → res ≠ inl ip) →
     ∃ e, setupConsulRange reachable store args = inr e
       ∧ is_consistency_error e = true)
  ∧ (∀ w1, setupConsulRange reachable store args = inl w1 →
       w1 = snd loop
       ∧ ∀ h r, Recordsv4 (plugin w0) !! h = Some r →
                (Some (IP_ r), inl (IP_ r)) ∈ made).
Proof.
  intros Hcfg loop made.
  destruct (configure_world _ _ _ _ Hcfg) as (_ & _ & Hnone).
  set (entries := range_Recordsv4 (Recordsv4 (plugin w0))) in *.
  destruct (reallocate_calls entries w0) as (made' & Hmade & Hres).
  fold loop in Hmade, Hres.
  assert (Heq : made = made').
  { unfold made. rewrite Hmade, Hnone, app_nil_r. apply rev_involutive. }
  rewrite Heq. clear Heq made Hmade.
  assert (Hasked : ∀ entry, entry ∈ entries →
            ∃ h r, Recordsv4 (plugin w0) !! h = Some r
                   ∧ Some (IP_ entry.2) = Some (IP_ r)).
  { intros [h r] Hin. exists h, r. split; [| reflexivity].
    by apply (range_loaded Hrange). }
  unfold setupConsulRange. rewrite Hcfg. fold entries. fold loop.
  destruct loop as [[e|] w1] eqn:Hloop; cbn [fst snd] in *.
  - destruct Hres as (He & n & entry & res & Hn & -> & Hbad).
    assert (Hlast : entry ∈ entries) by (apply list_elem_of_lookup; eauto).
    split; [| split; [| split]].
    + intros hint res' Hin. apply elem_of_app in Hin as [Hin | Hin].
      * apply list_elem_of_fmap in Hin as (entry' & Heq & Hin).
        inversion Heq; subst. apply Hasked.
        apply list_elem_of_lookup in Hin as (i & Hi).
        apply lookup_take_Some in Hi as [Hi _].
        apply list_elem_of_lookup. eauto.
      * apply list_elem_of_singleton in Hin. inversion Hin; subst.
        by apply Hasked.
    + intros Hall. exfalso.
      destruct (Hall (Some (IP_ entry.2)) res) as (ip & Hip & Hr).
      { apply elem_of_app. right. by apply list_elem_of_singleton. }
      inversion Hip; subst. by apply Hbad.
    + intros _. exists e. split; [reflexivity | exact He].
    + intros w' Hw'. discriminate Hw'.
  - subst made'.
    assert (Hevery : ∀ h r, Recordsv4 (plugin w0) !! h = Some r →
              (Some (IP_ r), inl (IP_ r)) ∈ exact <$> entries).
    { intros h r Hr. apply list_elem_of_fmap. exists (h, r).
      split; [reflexivity |]. by apply (range_loaded Hrange). }
    split; [| split; [| split]].
    + intros hint res Hin.
      apply list_elem_of_fmap in Hin as (entry & Heq & Hin).
      inversion Heq; subst. by apply Hasked.
    + intros _. split; [reflexivity | exact Hevery].
    + intros (hint & res & Hin & Hbad). exfalso.
      apply list_elem_of_fmap in Hin as (entry & Heq & Hin).
      inversion Heq; subst. by apply (Hbad (IP_ entry.2)).
    + intros w' Hw'. split; [by inversion Hw' | exact Hevery].
Qed.

End StartupRecovery.

(** An instance of [startup_recovery_reserves_exact_addresses]: the store
    holds the lease of [aa]. *)
Lemma startup_recovery_witness :
  setupConsulRange true Scenario.store_aa (Scenario.args "1h")
  = inl (Scenario.world_aa Hour)
  ∧ (Some Scenario.ip2, inl Scenario.ip2)
      ∈ allocations (Scenario.world_aa Hour).
Proof.
  assert (Hcfg : configure true Scenario.store_aa (Scenario.args "1h")
                 = inl (mkWorld
                          (mkPluginState {[ "aa"%string := Scenario.rec_aa ]}
                             Hour
                             (RangeAllocator.mk Scenario.ip2 Scenario.ip4 [])
                             Scenario.url Scenario.prefix)
                          Scenario.store_aa
                          [Printf "Loaded %d DHCPv4 leases from %s"
                             [ArgInt 1; ArgString Scenario.url]]
                          []))
    by (vm_compute; reflexivity).
  destruct (startup_recovery_reserves_exact_addresses
              GoRuntime_range_visits_all true Scenario.store_aa
              (Scenario.args "1h") _ Hcfg) as (_ & _ & _ & Hok).
  destruct (Hok (Scenario.world_aa Hour) setup_world_aa) as [Hw Hevery].
  split; [exact setup_world_aa |].
  specialize (Hevery "aa"%string Scenario.rec_aa eq_refl).
  rewrite <- Hw in Hevery.
  apply list_elem_of_In, in_rev, list_elem_of_In. exact Hevery.
Defined.

(** Two durable records with one address: the second reservation is
    answered with another address, and setup fails. *)
Example setup_detects_collision :
  setupConsulRange true
    (Consul.mk
       {[ Scenario.prefix :=
            {[ "aa"%string := Scenario.rec_aa;
               "bb"%string := mkRecord Scenario.ip2 200 "beta" ]} ]} [])
    (Scenario.args "1h")
  = inr (DidNotReallocate Scenario.ip2 Scenario.ip3).
Proof. vm_compute. reflexivity. Qed.

(** A durable record outside the configured range cannot be reserved
    either. *)
Example setup_detects_foreign_address :
  setupConsulRange true
    (Consul.mk
       {[ Scenario.prefix :=
            {[ "aa"%string := mkRecord (IPv4 192 168 0 1) 100 "alpha" ]} ]} [])
    (Scenario.args "1h")
  = inr (DidNotReallocate (IPv4 192 168 0 1) Scenario.ip2).
Proof. vm_compute. reflexivity. Qed.

(** ** Rendering of hardware addresses *)

Lemma hexDigit_at_inj i j :
  (i < 16)%N → (j < 16)%N → hexDigit_at i = hexDigit_at j → i = j.
Proof.
  intros Hi Hj.
  assert (Hcases : ∀ n, (n < 16)%N →
            n ∈ (N.of_nat <$> seq 0 16)).
  { intros n Hn. apply list_elem_of_fmap. exists (N.to_nat n).
    split; [lia |]. apply elem_of_seq. lia. }
  pose proof (Hcases i Hi) as Hi'. pose proof (Hcases j Hj) as Hj'.
  cbn in Hi', Hj'.
  repeat (apply elem_of_cons in Hi' as [-> | Hi']);
    [.. | by apply elem_of_nil in Hi'];
    repeat (apply elem_of_cons in Hj' as [-> | Hj']);
    try (by apply elem_of_nil in Hj');
    vm_compute; intros Heq; try reflexivity; discriminate Heq.
Qed.

Lemma hex_pair_inj b b' tail tail' :
  hex_pair b tail = hex_pair b' tail' → b = b' ∧ tail = tail'.
Proof.
  unfold hex_pair. intros Heq. injection Heq as Hhi Hlo Htail.
  split; [| exact Htail].
  pose proof (Byte.to_N_bounded b) as Hb.
  pose proof (Byte.to_N_bounded b') as Hb'.
  assert (H16 : ∀ n, (n <= 255)%N →
            (N.shiftr n 4 < 16)%N ∧ (N.land n 15 < 16)%N
            ∧ n = (16 * N.shiftr n 4 + N.land n 15)%N).
  { intros n Hn. rewrite N.shiftr_div_pow2.
    change 15%N with (N.ones 4). rewrite N.land_ones.
    change (2 ^ 4)%N with 16%N.
    pose proof (N.div_mod n 16 ltac:(lia)).
    pose proof (N.mod_lt n 16 ltac:(lia)).
    assert (n / 16 < 16)%N by (apply N.Div0.div_lt_upper_bound; lia).
    lia. }
  destruct (H16 _ Hb) as (Hh & Hl & Hn).
  destruct (H16 _ Hb') as (Hh' & Hl' & Hn').
  apply hexDigit_at_inj in Hhi; [| assumption ..].
  apply hexDigit_at_inj in Hlo; [| assumption ..].
  assert (Hto : Byte.to_N b = Byte.to_N b') by lia.
  apply (f_equal Byte.of_N) in Hto. rewrite !Byte.of_to_N in Hto.
  by inversion Hto.
Qed.

#[local] Arguments hex_pair : simpl never.

Lemma String_tail_inj c c' (s s' : string) :
  String c s = String c' s' → s = s'.
Proof. intros Heq. by injection Heq. Qed.

Lemma HardwareAddr_String_from_inj i j a a' :
  HardwareAddr_String_from (S i) a = HardwareAddr_String_from (S j) a' →
  a = a'.
Proof.
  revert i j a'. induction a as [| b a IH]; intros i j [| b' a'] Heq;
    cbn in Heq; try discriminate; [reflexivity |].
  apply String_tail_inj, hex_pair_inj in Heq as [-> Htail].
  f_equal. by apply (IH _ _ _ Htail).
Qed.

(** Distinct hardware addresses have distinct renderings: the keys of
    the lease table stand for the hardware addresses. *)
Lemma HardwareAddr_String_inj a a' :
  HardwareAddr_String a = HardwareAddr_String a' → a = a'.
Proof.
  destruct a as [| b a], a' as [| b' a']; cbn; intros Heq;
    try discriminate; [reflexivity |].
  apply hex_pair_inj in Heq as [-> Htail].
  f_equal. by apply (HardwareAddr_String_from_inj _ _ _ _ Htail).
Qed.

(** ** Injectivity of the leases *)

Section Injectivity.

Context {A : Type} `{Allocator A} `{Runtime A}.

Variable allocated : A → IP → Prop.
Hypothesis contract : AllocatorContract allocated.

Implicit Types (w : World A) (calls : list Call).

#[local] Abbreviation consistent := (consistent allocated).

Lemma NoDup_fmap_elem {X Y} (f : X → Y) (l : list X) x y :
  NoDup (f <$> l) → x ∈ l → y ∈ l → f x = f y → x = y.
Proof.
  induction l as [| z l IH]; intros Hnd Hx Hy Hf; [by inversion Hx |].
  cbn in Hnd. apply NoDup_cons in Hnd as [Hz Hnd].
  apply elem_of_cons in Hx as [-> | Hx]; apply elem_of_cons in Hy as [-> | Hy].
  - reflexivity.
  - exfalso. apply Hz. rewrite Hf. apply list_elem_of_fmap. eauto.
  - exfalso. apply Hz. rewrite <- Hf. apply list_elem_of_fmap. eauto.
  - by apply IH.
Qed.

(** A successful setup leaves a consistent world. *)
Lemma setup_consistent (Hrange : RangeVisitsAll) reachable store args w0 :
  setupConsulRange reachable store args = inl w0 → consistent w0.
Proof.
  intros Hsetup.
  destruct (setup_success _ _ _ _ Hsetup) as (wc & Hcfg & Hloop).
  pose proof (reallocate_frame (range_Recordsv4 (Recordsv4 (plugin wc))) wc)
    as Hframe. cbv zeta in Hframe. rewrite Hloop in Hframe.
  cbn [snd] in Hframe. destruct Hframe as (Htab & _).
  destruct (reallocate_success allocated contract _ _ _ Hloop)
    as (Hnodup & Hall & _).
  split.
  - intros h1 h2 r1 r2 H1 H2 Hip. rewrite Htab in H1, H2.
    apply (range_loaded Hrange) in H1, H2.
    assert (Heq : (h1, r1) = (h2, r2))
      by (apply (NoDup_fmap_elem _ _ _ _ Hnodup H1 H2); exact Hip).
    by inversion Heq.
  - intros h r Hr. rewrite Htab in Hr.
    apply (range_loaded Hrange) in Hr.
    apply (Hall (h, r) Hr).
Qed.

(** Every call keeps the world consistent. *)
Lemma Handler4_consistent w e req resp :
  consistent w → consistent (snd (Handler4 e req resp w)).
Proof.
  intros [Hinj Halloc].
  set (mac := HardwareAddr_String (ClientHWAddr req)).
  handler_paths w e req resp Hpath; fold mac in Hpath, Hlookup.
  - destruct Hpath as (w' & -> & Htab & _ & _ & _ & Ha & _). cbn [snd].
    split.
    + intros h1 h2 r1 r2. rewrite Htab.
      rewrite !lookup_insert. repeat case_decide; subst;
        intros Hl1 Hl2 Hip; try reflexivity; simplify_eq; cbn in Hip.
      * by apply (Hinj _ _ _ _ Hlookup Hl2).
      * by apply (Hinj _ _ _ _ Hl1 Hlookup).
      * by apply (Hinj _ _ _ _ Hl1 Hl2).
    + intros h r. rewrite Htab, Ha, lookup_insert. case_decide; subst.
      * intros [= <-]. cbn. by apply (Halloc _ _ Hlookup).
      * apply Halloc.
  - destruct Hpath as (w' & -> & Hp & _). cbn [snd].
    split; [by rewrite Hp |]. intros h r. rewrite Hp. apply Halloc.
  - destruct Hpath as (w' & -> & Htab & _ & _ & _ & Ha & _). cbn [snd].
    destruct (allocate_fresh _ contract _ _ _ _ Halloc0) as [Hfree Htaken].
    pose proof (λ ip, allocate_keeps _ contract _ _ _ _ ip Halloc0) as Hkeeps.
    split.
    + intros h1 h2 r1 r2. rewrite Htab.
      rewrite !lookup_insert. repeat case_decide; subst;
        intros Hl1 Hl2 Hip; try reflexivity; simplify_eq; cbn in Hip.
      * exfalso. apply Hfree. rewrite Hip. by apply (Halloc _ _ Hl2).
      * exfalso. apply Hfree. rewrite <- Hip. by apply (Halloc _ _ Hl1).
      * by apply (Hinj _ _ _ _ Hl1 Hl2).
    + intros h r. rewrite Htab, Ha, lookup_insert. case_decide; subst.
      * intros [= <-]. exact Htaken.
      * intros Hr. apply Hkeeps. by apply (Halloc _ _ Hr).
  - destruct Hpath as (w' & -> & Htab & _ & _ & _ & Ha & _). cbn [snd].
    pose proof (λ ip, allocate_keeps _ contract _ _ _ _ ip Halloc0) as Hkeeps.
    split; [by rewrite Htab |].
    intros h r. rewrite Htab, Ha. intros Hr. apply Hkeeps.
    by apply (Halloc _ _ Hr).
Qed.

Lemma after_consistent calls w : consistent w → consistent (after calls w).
Proof.
  revert w. induction calls as [| c calls IH]; intros w Hw; [exact Hw |].
  rewrite after_cons. apply IH. by apply Handler4_consistent.
Qed.

(** The address a call answered with is the address of the client's
    record at the end of the run. *)
Lemma outcomes_answer calls w i c resp' :
  calls !! i = Some c →
  outcomes calls w !! i = Some (Some resp', false) →
  ∃ r, Recordsv4 (plugin (after calls w)) !! call_mac c = Some r
    ∧ IP_ r = YourIPAddr resp'.
Proof.
  revert w i. induction calls as [| c0 calls IH]; intros w i Hc Hout;
    [discriminate |].
  rewrite outcomes_cons in Hout. rewrite after_cons.
  destruct i as [| i]; cbn in Hc, Hout.
  - inversion Hc; subst; clear Hc. inversion Hout as [Hfst]; clear Hout.
    unfold handle in *.
    destruct (Handler4 _ _ _ w) as [out w1] eqn:Hrun. cbn in Hfst. subst out.
    destruct (Handler4_answer _ _ _ _ _ _ Hrun) as (_ & r & Hr & Hip).
    cbn [snd].
    destruct (after_table calls w1 _ r Hr) as (r' & Hr' & Hip' & _).
    exists r'. split; [exact Hr' | congruence].
  - by apply IH with (i := i).
Qed.

(** C7 (I3). After a successful startup and any sequence of calls, no
    address is held by two records of the lease table, every address of
    the table is taken in the allocator, and no two calls of the run made
    for distinct hardware addresses were answered with the same address. *)
Theorem leases_are_injective (Hrange : RangeVisitsAll)
    reachable store args w0 calls :
  setupConsulRange reachable store args = inl w0 →
  injective_table (Recordsv4 (plugin (after calls w0)))
  ∧ table_allocated allocated (after calls w0)
  ∧ ∀ i j ci cj ri rj,
      calls !! i = Some ci → calls !! j = Some cj →
      outcomes calls w0 !! i = Some (Some ri, false) →
      outcomes calls w0 !! j = Some (Some rj, false) →
      ClientHWAddr (call_req ci) ≠ ClientHWAddr (call_req cj) →
      YourIPAddr ri ≠ YourIPAddr rj.
Proof.
  intros Hsetup.
  pose proof (after_consistent calls w0
                (setup_consistent Hrange _ _ _ _ Hsetup)) as [Hinj Halloc].
  split; [exact Hinj |]. split; [exact Halloc |].
  intros i j ci cj ri rj Hci Hcj Hri Hrj Hne Hip.
  destruct (outcomes_answer _ _ _ _ _ Hci Hri) as (r1 & Hr1 & Hip1).
  destruct (outcomes_answer _ _ _ _ _ Hcj Hrj) as (r2 & Hr2 & Hip2).
  apply Hne, HardwareAddr_String_inj.
  apply (Hinj _ _ _ _ Hr1 Hr2). congruence.
Qed.

End Injectivity.

(** An instance of [leases_are_injective]: the run of [aa], [bb], [cc]
    from the empty store. *)
Lemma leases_are_injective_witness :
  injective_table (Recordsv4 (plugin Scenario.world_full)).
Proof.
  exact (proj1 (leases_are_injective RangeAllocator.allocated
                  RangeAllocator_contract GoRuntime_range_visits_all
                  true Scenario.empty_store (Scenario.args "1h")
                  (Scenario.world_empty Hour) Scenario.calls_abc
                  setup_world_empty)).
Defined.

(** ** Monotonicity of the durable expiry *)

Section Monotonicity.

Context {A : Type} `{Allocator A} `{Runtime A}.

Implicit Types (w : World A) (calls : list Call).





End Monotonicity.


(** The clock matters: were the second reading of the clock far behind
    the first, the renewal would move the expiry back. *)
Example renewal_on_a_clock_running_backwards :
  let w' := snd (Handler4 (mkEnv 0 (- 3590 * Second) true)
                   (Scenario.request Scenario.hw_aa "alpha")
                   (Scenario.reply Scenario.hw_aa) (Scenario.world_aa Hour)) in
  Expires <$> durable w' "aa" = Some 10.
Proof. vm_compute. reflexivity. Qed.

(** * Further properties of setup *)

Section SetupFacts.

Context {A : Type} `{Allocator A} `{Runtime A}.

Implicit Types (w : World A) (args : list string).

(** What [configure] has checked and built when it returns a world. *)
Lemma configure_inv reachable store args w0 :
  configure reachable store args = inl w0 →
  ∃ url prefix s1 s2 d rest ip1 ip2,
    args = url :: prefix :: s1 :: s2 :: d :: rest
    ∧ url ≠ ""%string ∧ prefix ≠ ""%string
    ∧ net_ParseIP_To4 s1 = Some ip1 ∧ net_ParseIP_To4 s2 = Some ip2
    ∧ BigEndian_Uint32 ip1 < BigEndian_Uint32 ip2
    ∧ bitmap_NewIPv4Allocator ip1 ip2 = inl (allocator (plugin w0))
    ∧ time_ParseDuration d = inl (LeaseTime (plugin w0))
    ∧ api_NewClient url = None
    ∧ reachable = true
    ∧ consulURL (plugin w0) = url
    ∧ consulKVPrefix (plugin w0) = prefix
    ∧ Recordsv4 (plugin w0) = Consul.LoadAll prefix store
    ∧ consul w0 = store
    ∧ allocations w0 = [].
Proof.
  intros Hcfg.
  destruct args as [| url [| prefix [| s1 [| s2 [| d rest]]]]];
    try discriminate Hcfg.
  unfold configure in Hcfg.
  destruct (String.eqb_spec url "") as [| Hurl]; [discriminate |].
  destruct (String.eqb_spec prefix "") as [| Hpre]; [discriminate |].
  destruct (net_ParseIP_To4 s1) as [ip1|] eqn:Hs1; [| discriminate].
  destruct (net_ParseIP_To4 s2) as [ip2|] eqn:Hs2; [| discriminate].
  destruct (BigEndian_Uint32 ip1 >=? BigEndian_Uint32 ip2) eqn:Hge;
    [discriminate |].
  destruct (bitmap_NewIPv4Allocator ip1 ip2) as [alloc|] eqn:Hal;
    [| discriminate].
  destruct (time_ParseDuration d) as [leaseTime|] eqn:Hd; [| discriminate].
  destruct (api_NewClient url) eqn:Hcl; [discriminate |].
  destruct reachable; [| discriminate]. cbn in Hcfg.
  inversion Hcfg; subst; clear Hcfg. cbn.
  rewrite Z.geb_leb in Hge. apply Z.leb_gt in Hge.
  exists url, prefix, s1, s2, d, rest, ip1, ip2.
  repeat split; assumption.
Qed.

Lemma reallocate_url entries w :
  consulURL (plugin (snd (reallocate entries w))) = consulURL (plugin w).
Proof.
  revert w. induction entries as [| [k v] entries IH]; intros w; [done |].
  rewrite reallocate_cons.
  destruct (Allocate _ _) as [a' [ip|err]]; [| done].
  destruct (negb (ip =? IP_ v)); [done |].
  by rewrite IH.
Qed.

(** Arguments after the fifth are ignored: setup only checks that there
    are at least five. *)
Remark setup_ignores_extra_arguments reachable store args extra :
  (5 <= length args)%nat →
  setupConsulRange reachable store (args ++ extra)
  = setupConsulRange reachable store args.
Proof.
  intros Hlen.
  destruct args as [| a0 [| a1 [| a2 [| a3 [| a4 rest]]]]];
    cbn in Hlen; try lia.
  reflexivity.
Qed.

(** X1. The parameters are checked before the store is contacted: a
    configuration error is the same whatever the store holds and whether
    or not it answers. *)
Theorem setup_validation_precedes_store
    reachable store reachable' store' args e :
  setupConsulRange reachable store args = inr e →
  is_configuration_error e = true →
  setupConsulRange reachable' store' args = inr e.
Proof.
  unfold setupConsulRange. intros Hsetup Hcfg.
  destruct (configure reachable store args) as [w0|e0] eqn:Hc.
  - exfalso.
    pose proof (reallocate_calls (range_Recordsv4 (Recordsv4 (plugin w0))) w0)
      as (made & _ & Hres). cbv zeta in Hres.
    destruct (reallocate _ w0) as [[e1|] w1]; [| discriminate].
    inversion Hsetup; subst; clear Hsetup. cbn in Hres.
    destruct Hres as [Hcons _]. destruct e; discriminate.
  - inversion Hsetup; subst; clear Hsetup.
    assert (Hc' : configure reachable' store' args = inr e).
    { destruct args as [| url [| prefix [| s1 [| s2 [| d rest]]]]];
        try exact Hc.
      unfold configure in Hc |- *.
      destruct (String.eqb url ""); [exact Hc |].
      destruct (String.eqb prefix ""); [exact Hc |].
      destruct (net_ParseIP_To4 s1) as [ip1|]; [| exact Hc].
      destruct (net_ParseIP_To4 s2) as [ip2|]; [| exact Hc].
      destruct (BigEndian_Uint32 ip1 >=? BigEndian_Uint32 ip2); [exact Hc |].
      destruct (bitmap_NewIPv4Allocator ip1 ip2); [| exact Hc].
      destruct (time_ParseDuration d); [| exact Hc].
      exfalso.
      destruct (api_NewClient url).
      { inversion Hc; subst. discriminate. }
      destruct reachable; cbn in Hc; inversion Hc; subst. discriminate. }
    by rewrite Hc'.
Qed.

(** What a successful setup has checked, and the world it returns. *)
Lemma setup_inv reachable store args w :
  setupConsulRange reachable store args = inl w →
  ∃ url prefix s1 s2 d rest ip1 ip2,
    args = url :: prefix :: s1 :: s2 :: d :: rest
    ∧ url ≠ ""%string ∧ prefix ≠ ""%string
    ∧ net_ParseIP_To4 s1 = Some ip1 ∧ net_ParseIP_To4 s2 = Some ip2
    ∧ BigEndian_Uint32 ip1 < BigEndian_Uint32 ip2
    ∧ time_ParseDuration d = inl (LeaseTime (plugin w))
    ∧ api_NewClient url = None
    ∧ reachable = true
    ∧ consulURL (plugin w) = url
    ∧ consulKVPrefix (plugin w) = prefix
    ∧ Recordsv4 (plugin w) = Consul.LoadAll prefix store
    ∧ consul w = store.
Proof.
  intros Hsetup.
  destruct (setup_success _ _ _ _ Hsetup) as (w0 & Hcfg & Hloop).
  destruct (configure_inv _ _ _ _ Hcfg)
    as (url & prefix & s1 & s2 & d & rest & ip1 & ip2 & -> & Hurl & Hpre
        & Hs1 & Hs2 & Hlt & _ & Hd & Hcl & Hreach & Hu & Hp & Htab & Hst & _).
  pose proof (reallocate_frame (range_Recordsv4 (Recordsv4 (plugin w0))) w0)
    as Hframe. cbv zeta in Hframe.
  pose proof (reallocate_url (range_Recordsv4 (Recordsv4 (plugin w0))) w0)
    as Hframe_url.
  rewrite Hloop in Hframe, Hframe_url. cbn [snd] in Hframe, Hframe_url.
  destruct Hframe as (Htab' & Hlt' & Hpre' & Hst').
  exists url, prefix, s1, s2, d, rest, ip1, ip2.
  repeat split; try reflexivity; try assumption; congruence.
Qed.

(** X2. A setup that returns a handler has found every parameter in
    order, has built allocator and client and has reached the store: the
    plugin it returns carries the parsed lease duration and the given
    prefix, its lease table is exactly what the store holds under that
    prefix, and the store itself has not been written. *)
Theorem setup_success_means_valid_configuration reachable store args w :
  setupConsulRange reachable store args = inl w →
  ∃ url prefix s1 s2 d ip1 ip2,
    args !! 0%nat = Some url ∧ url ≠ ""%string
    ∧ args !! 1%nat = Some prefix ∧ prefix ≠ ""%string
    ∧ args !! 2%nat = Some s1 ∧ net_ParseIP_To4 s1 = Some ip1
    ∧ args !! 3%nat = Some s2 ∧ net_ParseIP_To4 s2 = Some ip2
    ∧ BigEndian_Uint32 ip1 < BigEndian_Uint32 ip2
    ∧ args !! 4%nat = Some d
    ∧ time_ParseDuration d = inl (LeaseTime (plugin w))
    ∧ api_NewClient url = None
    ∧ reachable = true
    ∧ consulURL (plugin w) = url
    ∧ consulKVPrefix (plugin w) = prefix
    ∧ Recordsv4 (plugin w) = Consul.LoadAll prefix store
    ∧ consul w = store.
Proof.
  intros Hsetup.
  destruct (setup_inv _ _ _ _ Hsetup)
    as (url & prefix & s1 & s2 & d & rest & ip1 & ip2 & -> & Hurl & Hpre
        & Hs1 & Hs2 & Hlt & Hd & Hcl & Hreach & Hu & Hp & Htab & Hst).
  exists url, prefix, s1, s2, d, ip1, ip2.
  repeat split; try reflexivity; assumption.
Qed.

(** X3. First start: with parameters in order, allocator and client
    built, and a store that answers and holds nothing under the prefix,
    setup returns a handler on an empty lease table. *)
Theorem setup_succeeds_on_empty_store (Hrange : RangeVisitsAll)
    store url prefix s1 s2 d rest ip1 ip2 alloc leaseTime :
  url ≠ ""%string → prefix ≠ ""%string →
  net_ParseIP_To4 s1 = Some ip1 → net_ParseIP_To4 s2 = Some ip2 →
  BigEndian_Uint32 ip1 < BigEndian_Uint32 ip2 →
  bitmap_NewIPv4Allocator ip1 ip2 = inl alloc →
  time_ParseDuration d = inl leaseTime →
  api_NewClient url = None →
  Consul.LoadAll prefix store = ∅ →
  ∃ w, setupConsulRange true store (url :: prefix :: s1 :: s2 :: d :: rest)
       = inl w
    ∧ Recordsv4 (plugin w) = ∅
    ∧ LeaseTime (plugin w) = leaseTime
    ∧ allocator (plugin w) = alloc
    ∧ consul w = store.
Proof.
  intros Hurl Hpre Hs1 Hs2 Hlt Hal Hd Hcl Hempty.
  unfold setupConsulRange, configure.
  destruct (String.eqb_spec url ""); [done |].
  destruct (String.eqb_spec prefix ""); [done |].
  rewrite Hs1, Hs2.
  assert (Hge : (BigEndian_Uint32 ip1 >=? BigEndian_Uint32 ip2) = false)
    by (rewrite Z.geb_leb; apply Z.leb_gt; exact Hlt).
  rewrite Hge, Hal, Hd, Hcl. cbn. rewrite Hempty.
  assert (Hnil : range_Recordsv4 (∅ : gmap string Record_) = []).
  { apply Permutation_nil_r. rewrite (Hrange ∅). by rewrite map_to_list_empty. }
  rewrite Hnil. cbn. eexists. split; [reflexivity |]. cbn. done.
Qed.

End SetupFacts.

(** An instance of [setup_validation_precedes_store]: a range that ends
    before it starts, rejected alike from a store that does not answer. *)
Lemma setup_validation_witness :
  setupConsulRange false Scenario.store_aa
    ["http://consul:8500"; "dhcp"; "10.0.0.4"; "10.0.0.2"; "1h"]%string
  = inr RangeStartNotLower.
Proof.
  apply (setup_validation_precedes_store true Scenario.empty_store).
  - vm_compute. reflexivity.
  - reflexivity.
Defined.

(** An instance of [setup_success_means_valid_configuration]. *)
Lemma setup_success_witness :
  time_ParseDuration "1h" = inl Hour
  ∧ Recordsv4 (plugin (Scenario.world_aa Hour))
    = Consul.LoadAll "dhcp" Scenario.store_aa.
Proof.
  destruct (setup_success_means_valid_configuration true Scenario.store_aa
              (Scenario.args "1h") (Scenario.world_aa Hour) setup_world_aa)
    as (url & prefix & s1 & s2 & d & ip1 & ip2 & _ & _ & Hp & _ & _ & _ & _ & _
        & _ & Hd & Hparse & _ & _ & _ & _ & Htab & _).
  cbn in Hp, Hd. injection Hp as <-. injection Hd as <-.
  split; [exact Hparse | exact Htab].
Defined.

(** An instance of [setup_succeeds_on_empty_store]. *)
Lemma setup_empty_store_witness :
  ∃ w, setupConsulRange true Scenario.empty_store (Scenario.args "1h") = inl w
    ∧ Recordsv4 (plugin w) = ∅
    ∧ LeaseTime (plugin w) = Hour.
Proof.
  destruct (setup_succeeds_on_empty_store GoRuntime_range_visits_all
              Scenario.empty_store Scenario.url Scenario.prefix
              "10.0.0.2" "10.0.0.4" "1h" [] Scenario.ip2 Scenario.ip4
              (RangeAllocator.mk Scenario.ip2 Scenario.ip4 []) Hour)
    as (w & Hw & Htab & Hlt & _);
    try (vm_compute; first [reflexivity | discriminate]).
  exists w. split; [exact Hw |]. split; [exact Htab | exact Hlt].
Defined.

(** * Further properties of the handler *)

Section HandlerFacts.

Context {A : Type} `{Allocator A} `{Runtime A}.

Implicit Types (w : World A) (e : Env) (req resp : DHCPv4) (r : Record_)
  (calls : list Call).

(** X4. Recovery: a client whose record was in the store at startup is
    answered with the address of that record, at once or after any
    number of other calls. *)
Theorem recovered_client_gets_persisted_address
    reachable store args prefix w0 req r calls e resp :
  setupConsulRange reachable store args = inl w0 →
  args !! 1%nat = Some prefix →
  Consul.lookup prefix (HardwareAddr_String (ClientHWAddr req)) store = Some r →
  ∃ resp' w',
    Handler4 e req resp (after calls w0) = ((Some resp', false), w')
    ∧ YourIPAddr resp' = IP_ r.
Proof.
  intros Hsetup Hprefix Hstored.
  destruct (setup_inv _ _ _ _ Hsetup)
    as (url & prefix' & s1 & s2 & d & rest & ip1 & ip2 & -> & _ & _ & _ & _
        & _ & _ & _ & _ & _ & _ & Htab & _).
  cbn in Hprefix. injection Hprefix as ->.
  assert (Hr : Recordsv4 (plugin w0)
               !! HardwareAddr_String (ClientHWAddr req) = Some r)
    by (rewrite Htab; exact Hstored).
  destruct (after_table calls w0 _ r Hr) as (r' & Hr' & Hip & _).
  destruct (Handler4_existing (after calls w0) e req resp r' Hr')
    as (resp' & w' & _ & Hrun & Hanswer & _).
  exists resp', w'. split; [exact Hrun | congruence].
Qed.

(** X5. A call touches no record but the client's own: the table
    records and the durable records of other hardware identifiers, and
    everything under other prefixes, stay as they are. It sends at most
    one write, and a write carries the record the table then holds for
    the client. *)
Theorem call_touches_only_own_record w e req resp :
  let mac := HardwareAddr_String (ClientHWAddr req) in
  let prefix := consulKVPrefix (plugin w) in
  let w' := snd (Handler4 e req resp w) in
  (∀ h, h ≠ mac → Recordsv4 (plugin w') !! h = Recordsv4 (plugin w) !! h)
  ∧ (∀ p h, (p, h) ≠ (prefix, mac) →
       Consul.lookup p h (consul w') = Consul.lookup p h (consul w))
  ∧ (Consul.requests (consul w') = Consul.requests (consul w)
     ∨ ∃ rec, Consul.requests (consul w')
              = (prefix, mac, rec) :: Consul.requests (consul w)
         ∧ Recordsv4 (plugin w') !! mac = Some rec).
Proof.
  intros mac prefix w'. subst w'.
  assert (Hother : ∀ accepted rec p h, (p, h) ≠ (prefix, mac) →
            Consul.lookup p h
              (snd (Consul.Upsert accepted prefix mac rec (consul w)))
            = Consul.lookup p h (consul w)).
  { intros accepted rec p h Hne. rewrite Consul_lookup_Upsert.
    destruct accepted; [| reflexivity]. cbn.
    destruct (bool_decide_reflect (prefix = p)) as [<- |]; [| reflexivity].
    destruct (bool_decide_reflect (mac = h)) as [<- |]; [| reflexivity].
    by destruct Hne. }
  handler_paths w e req resp Hpath; fold mac in Hpath, Hlookup;
    fold prefix in Hpath.
  - destruct Hpath as (w' & -> & Htab & _ & _ & _ & _ & Hst & _).
    cbn [snd]. split; [| split].
    + intros h Hne. rewrite Htab. by rewrite lookup_insert_ne.
    + intros p h Hne. rewrite Hst. by apply Hother.
    + right. eexists. split; [rewrite Hst; apply Consul_requests_Upsert |].
      rewrite Htab. apply lookup_insert_eq.
  - destruct Hpath as (w' & -> & Hp & Hst & _). cbn [snd].
    rewrite Hp, Hst. split; [done |]. split; [done | by left].
  - destruct Hpath as (w' & -> & Htab & _ & _ & _ & _ & Hst & _).
    cbn [snd]. split; [| split].
    + intros h Hne. rewrite Htab. by rewrite lookup_insert_ne.
    + intros p h Hne. rewrite Hst. by apply Hother.
    + right. eexists. split; [rewrite Hst; apply Consul_requests_Upsert |].
      rewrite Htab. apply lookup_insert_eq.
  - destruct Hpath as (w' & -> & Htab & _ & _ & _ & _ & Hst & _).
    cbn [snd]. rewrite Htab, Hst. split; [done |]. split; [done | by left].
Qed.

(** X6. The record behind an answer covers the lease: after a
    successful call made at time [t], the table record of the client
    expires later than one second before [t] plus the lease duration. *)
Theorem record_expiry_covers_lease w t accepted req resp resp' w' :
  Handler4 (mkEnv t t accepted) req resp w = ((Some resp', false), w') →
  ∃ r, Recordsv4 (plugin w') !! HardwareAddr_String (ClientHWAddr req) = Some r
    ∧ YourIPAddr resp' = IP_ r
    ∧ Time_Add t (LeaseTime (plugin w)) - Second < time_Unix (Expires r).
Proof.
  intros Hrun. set (mac := HardwareAddr_String (ClientHWAddr req)).
  assert (Hfloor : ∀ n, n - Second < time_Unix (n / Second)).
  { intros n. unfold time_Unix. change Second with 1000000000.
    pose proof (Z.div_mod n 1000000000 ltac:(lia)).
    pose proof (Z.mod_pos_bound n 1000000000 ltac:(lia)). lia. }
  handler_paths w (mkEnv t t accepted) req resp Hpath;
    fold mac in Hpath, Hlookup;
    destruct Hpath as (w1 & Hrun1 & Htab & _);
    rewrite Hrun in Hrun1; inversion Hrun1; subst; clear Hrun1.
  - eexists. rewrite Htab, lookup_insert_eq. split; [reflexivity |].
    split; [reflexivity |].
    unfold renewed_record. cbn [Expires now_second].
    rewrite Time_Round_Second_Unix.
    specialize (Hfloor (Time_Add t (LeaseTime (plugin w)) + 500000000)).
    change Second with 1000000000 in *. lia.
  - exists r0. rewrite Htab. split; [exact Hlookup |].
    split; [reflexivity |].
    unfold renewal_due, Time_Before in Hdue. apply Z.ltb_ge in Hdue.
    cbn [now_first] in Hdue. change Second with 1000000000. lia.
  - eexists. rewrite Htab, lookup_insert_eq. split; [reflexivity |].
    split; [reflexivity |].
    unfold new_record. cbn [Expires now_first]. apply Hfloor.
Qed.

(** X7. The renewal test holds on every request that comes more than
    half a second after the request that last wrote the record: when a
    call made at time [t] has sent a write for a client, a later call of
    that client whose clock reads more than [t] plus half a second sends
    a write again. *)
Theorem later_request_writes_again
    w t accepted req resp w1 e2 req2 resp2 out :
  Handler4 (mkEnv t t accepted) req resp w = (out, w1) →
  Consul.requests (consul w1) ≠ Consul.requests (consul w) →
  ClientHWAddr req2 = ClientHWAddr req →
  t + 500000000 < now_first e2 →
  ∃ rec,
    Consul.requests (consul (snd (Handler4 e2 req2 resp2 w1)))
    = (consulKVPrefix (plugin w), HardwareAddr_String (ClientHWAddr req), rec)
        :: Consul.requests (consul w1).
Proof.
  intros Hrun Hsent Hsame Hlater.
  set (mac := HardwareAddr_String (ClientHWAddr req)) in *.
  set (D := LeaseTime (plugin w)).
  assert (Hfloor : ∀ n, time_Unix (n / Second) <= n).
  { intros n. unfold time_Unix. change Second with 1000000000.
    pose proof (Z.div_mod n 1000000000 ltac:(lia)).
    pose proof (Z.mod_pos_bound n 1000000000 ltac:(lia)). lia. }
  assert (Hw1 : ∃ r1, Recordsv4 (plugin w1) !! mac = Some r1
                  ∧ time_Unix (Expires r1) <= t + D + 500000000
                  ∧ LeaseTime (plugin w1) = D
                  ∧ consulKVPrefix (plugin w1) = consulKVPrefix (plugin w)).
  { handler_paths w (mkEnv t t accepted) req resp Hpath;
      fold mac in Hpath, Hlookup.
    - destruct Hpath as (w' & Hrun' & Htab & Hlt & Hpre & _).
      rewrite Hrun in Hrun'. inversion Hrun'; subst w'; clear Hrun'.
      eexists. rewrite Htab, lookup_insert_eq. split; [reflexivity |].
      split; [| split; [exact Hlt | exact Hpre]].
      unfold renewed_record. cbn [Expires now_second].
      rewrite Time_Round_Second_Unix. apply Hfloor.
    - destruct Hpath as (w' & Hrun' & _ & Hst & _).
      rewrite Hrun in Hrun'. inversion Hrun'; subst w'; clear Hrun'.
      by rewrite Hst in Hsent.
    - destruct Hpath as (w' & Hrun' & Htab & Hlt & Hpre & _).
      rewrite Hrun in Hrun'. inversion Hrun'; subst w'; clear Hrun'.
      eexists. rewrite Htab, lookup_insert_eq. split; [reflexivity |].
      split; [| split; [exact Hlt | exact Hpre]].
      unfold new_record. cbn [Expires now_first]. unfold Time_Unix.
      specialize (Hfloor (Time_Add t (LeaseTime (plugin w)))).
      unfold Time_Add, D in *. lia.
    - destruct Hpath as (w' & Hrun' & _ & _ & _ & _ & _ & Hst & _).
      rewrite Hrun in Hrun'. inversion Hrun'; subst w'; clear Hrun'.
      by rewrite Hst in Hsent. }
  destruct Hw1 as (r1 & Hr1 & Hexp & Hlt & Hpre).
  assert (Hr1' : Recordsv4 (plugin w1)
                 !! HardwareAddr_String (ClientHWAddr req2) = Some r1)
    by (rewrite Hsame; exact Hr1).
  assert (Hdue : renewal_due w1 e2 r1 = true).
  { unfold renewal_due, Time_Before, Time_Add. rewrite Hlt.
    apply Z.ltb_lt. lia. }
  destruct (Handler4_renew w1 e2 req2 resp2 r1 Hr1' Hdue)
    as (w2 & -> & _ & _ & _ & _ & _ & Hst & _).
  cbn [snd]. eexists. rewrite Hst, Consul_requests_Upsert, Hpre, Hsame.
  reflexivity.
Qed.

End HandlerFacts.

(** * Store, table and allocator over a run *)

Section RunFacts.

Context {A : Type} `{Allocator A} `{Runtime A}.

Implicit Types (w : World A) (e : Env) (req resp : DHCPv4) (calls : list Call).

Lemma setup_in_sync reachable store args w0 :
  setupConsulRange reachable store args = inl w0 → in_sync w0.
Proof.
  intros Hsetup mac.
  destruct (setup_inv _ _ _ _ Hsetup)
    as (url & prefix & s1 & s2 & d & rest & ip1 & ip2 & _ & _ & _ & _ & _
        & _ & _ & _ & _ & _ & Hpre & Htab & Hst).
  unfold durable. by rewrite Hpre, Hst, Htab.
Qed.

Lemma Handler4_in_sync w e req resp :
  in_sync w → store_accepts e = true → in_sync (snd (Handler4 e req resp w)).
Proof.
  intros Hsync Hacc. set (mac := HardwareAddr_String (ClientHWAddr req)).
  assert (Hwrite : ∀ w' rec,
            consulKVPrefix (plugin w') = consulKVPrefix (plugin w) →
            consul w' = snd (Consul.Upsert (store_accepts e)
                               (consulKVPrefix (plugin w)) mac rec (consul w)) →
            Recordsv4 (plugin w') = <[mac := rec]> (Recordsv4 (plugin w)) →
            in_sync w').
  { intros w' rec Hp Hc Htab h. unfold durable.
    rewrite Hp, Hc, Htab, Consul_lookup_Upsert, Hacc.
    rewrite (bool_decide_eq_true_2
               (consulKVPrefix (plugin w) = consulKVPrefix (plugin w)))
      by reflexivity.
    cbn. destruct (bool_decide_reflect (mac = h)) as [<- | Hne].
    - by rewrite lookup_insert_eq.
    - rewrite lookup_insert_ne by done. apply (Hsync h). }
  handler_paths w e req resp Hpath; fold mac in Hpath, Hlookup.
  - destruct Hpath as (w' & -> & Htab & _ & Hpre & _ & _ & Hst & _).
    cbn [snd]. by apply (Hwrite w' _ Hpre Hst).
  - destruct Hpath as (w' & -> & Hp & Hst & _). cbn [snd].
    intros h. unfold durable. rewrite Hp, Hst. apply (Hsync h).
  - destruct Hpath as (w' & -> & Htab & _ & Hpre & _ & _ & Hst & _).
    cbn [snd]. by apply (Hwrite w' _ Hpre Hst).
  - destruct Hpath as (w' & -> & Htab & _ & Hpre & _ & _ & Hst & _).
    cbn [snd]. intros h. unfold durable. rewrite Hpre, Hst, Htab.
    apply (Hsync h).
Qed.

Lemma after_in_sync calls w :
  in_sync w → Forall accepted_call calls → in_sync (after calls w).
Proof.
  revert w. induction calls as [| c calls IH]; intros w Hsync Hacc;
    [exact Hsync |].
  rewrite after_cons. inversion Hacc as [| ? ? Hc Hrest]; subst.
  apply IH; [| exact Hrest]. by apply Handler4_in_sync.
Qed.

(** X8. As long as the store takes every write, store and lease table
    hold the same records: after a successful startup and a run in which
    no write is rejected, the durable record of every hardware
    identifier is its table record, and there is none where the table
    has none. *)
Theorem store_follows_table_while_writes_succeed
    reachable store args w0 calls mac :
  setupConsulRange reachable store args = inl w0 →
  Forall accepted_call calls →
  durable (after calls w0) mac = Recordsv4 (plugin (after calls w0)) !! mac.
Proof.
  intros Hsetup Hacc.
  apply (after_in_sync calls w0); [| exact Hacc].
  by apply (setup_in_sync _ _ _ _ Hsetup).
Qed.

(** X9. Restart: when no write of a run was rejected and the plugin is
    then set up again, with the same arguments, on the store the run has
    left, a successful setup starts from the lease table the run ended
    with. *)
Theorem restart_restores_lease_table
    reachable store args w0 calls reachable' w0' :
  setupConsulRange reachable store args = inl w0 →
  Forall accepted_call calls →
  setupConsulRange reachable' (consul (after calls w0)) args = inl w0' →
  Recordsv4 (plugin w0') = Recordsv4 (plugin (after calls w0)).
Proof.
  intros Hsetup Hacc Hagain.
  pose proof (after_in_sync calls w0 (setup_in_sync _ _ _ _ Hsetup) Hacc)
    as Hsync.
  destruct (setup_inv _ _ _ _ Hsetup)
    as (url & prefix & s1 & s2 & d & rest & ip1 & ip2 & Hargs & _ & _ & _ & _
        & _ & _ & _ & _ & _ & Hpre & _).
  destruct (setup_inv _ _ _ _ Hagain)
    as (url' & prefix' & s1' & s2' & d' & rest' & ip1' & ip2' & Hargs' & _ & _
        & _ & _ & _ & _ & _ & _ & _ & Hpre' & Htab' & _).
  assert (Hsame : prefix' = prefix) by congruence.
  destruct (after_configuration calls w0) as [_ Hkeep].
  apply map_eq. intros mac. rewrite Htab', <- (Hsync mac).
  unfold durable. by rewrite Hkeep, Hpre, Hsame.
Qed.

Lemma granted_cons hint res history :
  granted ((hint, res) :: history)
  = ((match res with inl _ => 1 | inr _ => 0 end) + granted history)%nat.
Proof. unfold granted. cbn. by destruct res. Qed.

Lemma Handler4_granted w e req resp :
  let w' := snd (Handler4 e req resp w) in
  (size (Recordsv4 (plugin w')) + granted (allocations w)
   = size (Recordsv4 (plugin w)) + granted (allocations w'))%nat.
Proof.
  cbv zeta. set (mac := HardwareAddr_String (ClientHWAddr req)).
  handler_paths w e req resp Hpath; fold mac in Hpath, Hlookup.
  - destruct Hpath as (w' & -> & Htab & _ & _ & _ & _ & _ & Hal & _).
    cbn [snd]. rewrite Htab, Hal.
    by rewrite map_size_insert_Some by (rewrite Hlookup; eauto).
  - destruct Hpath as (w' & -> & Hp & _ & Hal & _). cbn [snd].
    by rewrite Hp, Hal.
  - destruct Hpath as (w' & -> & Htab & _ & _ & _ & _ & _ & Hal & _).
    cbn [snd]. rewrite Htab, Hal, granted_cons.
    rewrite map_size_insert_None by exact Hlookup. lia.
  - destruct Hpath as (w' & -> & Htab & _ & _ & _ & _ & _ & Hal & _).
    cbn [snd]. rewrite Htab, Hal, granted_cons. lia.
Qed.

Lemma after_granted calls w :
  (size (Recordsv4 (plugin (after calls w))) + granted (allocations w)
   = size (Recordsv4 (plugin w)) + granted (allocations (after calls w)))%nat.
Proof.
  revert w. induction calls as [| c calls IH]; intros w; [done |].
  rewrite after_cons. specialize (IH (snd (handle c w))).
  pose proof (Handler4_granted w (call_env c) (call_req c) (call_resp c))
    as Hstep. cbv zeta in Hstep. unfold handle in *. lia.
Qed.

Lemma setup_granted (Hrange : RangeVisitsAll) reachable store args w0 :
  setupConsulRange reachable store args = inl w0 →
  size (Recordsv4 (plugin w0)) = granted (allocations w0).
Proof.
  intros Hsetup.
  destruct (setup_success _ _ _ _ Hsetup) as (wc & Hcfg & Hloop).
  destruct (configure_world _ _ _ _ Hcfg) as (_ & _ & Hnone).
  set (entries := range_Recordsv4 (Recordsv4 (plugin wc))) in *.
  pose proof (reallocate_frame entries wc) as Hframe. cbv zeta in Hframe.
  destruct (reallocate_calls entries wc) as (made & Hmade & Hres).
  rewrite Hloop in Hframe, Hmade, Hres. cbn [fst snd] in Hframe, Hmade, Hres.
  destruct Hframe as (Htab & _). subst made.
  rewrite Htab, Hmade, Hnone, app_nil_r.
  unfold granted. rewrite filter_rev, length_rev.
  rewrite <- length_map_to_list, <- (Permutation_length (Hrange _)).
  fold entries. clear. induction entries as [| entry entries IH]; [done |].
  cbn. by rewrite IH.
Qed.

(** X10. No address is lost: after a successful startup and any run,
    the lease table has as many records as the allocator has granted
    addresses since it was built. Every granted address is in a record,
    whether or not the store took the write. *)
Theorem every_granted_address_is_on_record (Hrange : RangeVisitsAll)
    reachable store args w0 calls :
  setupConsulRange reachable store args = inl w0 →
  size (Recordsv4 (plugin (after calls w0)))
  = granted (allocations (after calls w0)).
Proof.
  intros Hsetup.
  pose proof (setup_granted Hrange _ _ _ _ Hsetup) as Hstart.
  pose proof (after_granted calls w0) as Hrun. lia.
Qed.

(** X11. Two durable records with one address stop the startup: under
    the allocator's contract, setup returns an error whenever the store
    holds, under the plugin's prefix, the same address for two hardware
    identifiers. *)
Theorem setup_rejects_duplicate_addresses
    (allocated : A → IP → Prop) (contract : AllocatorContract allocated)
    (Hrange : RangeVisitsAll) reachable store args prefix h1 h2 r1 r2 :
  args !! 1%nat = Some prefix →
  Consul.lookup prefix h1 store = Some r1 →
  Consul.lookup prefix h2 store = Some r2 →
  h1 ≠ h2 → IP_ r1 = IP_ r2 →
  ∃ err, setupConsulRange reachable store args = inr err.
Proof.
  intros Hprefix Hr1 Hr2 Hne Hip.
  destruct (setupConsulRange reachable store args) as [w0|err] eqn:Hsetup;
    [| by exists err].
  exfalso.
  destruct (setup_consistent allocated contract Hrange _ _ _ _ Hsetup)
    as [Hinj _].
  destruct (setup_inv _ _ _ _ Hsetup)
    as (url & prefix' & s1 & s2 & d & rest & ip1 & ip2 & -> & _ & _ & _ & _
        & _ & _ & _ & _ & _ & _ & Htab & _).
  cbn in Hprefix. injection Hprefix as ->.
  apply Hne. apply (Hinj h1 h2 r1 r2); [| | exact Hip];
    rewrite Htab; assumption.
Qed.

End RunFacts.

(** An instance of [recovered_client_gets_persisted_address]: [aa] was
    in the store at startup and asks after the others have leased. *)
Lemma recovered_client_witness :
  ∃ resp' w',
    Handler4 (Scenario.at_second 9 true)
      (Scenario.request Scenario.hw_aa "alpha")
      (Scenario.reply Scenario.hw_aa)
      (after Scenario.calls_abc (Scenario.world_aa Hour))
    = ((Some resp', false), w')
    ∧ YourIPAddr resp' = Scenario.ip2.
Proof.
  exact (recovered_client_gets_persisted_address true Scenario.store_aa
           (Scenario.args "1h") Scenario.prefix (Scenario.world_aa Hour)
           (Scenario.request Scenario.hw_aa "alpha") Scenario.rec_aa
           Scenario.calls_abc (Scenario.at_second 9 true)
           (Scenario.reply Scenario.hw_aa) setup_world_aa eq_refl eq_refl).
Defined.

(** An instance of [record_expiry_covers_lease]: [aa] renews at second
    7 with a lease of one hour. *)
Lemma record_expiry_witness :
  ∃ r,
    Recordsv4
      (plugin
         (snd (Handler4 (mkEnv (7 * Second) (7 * Second) true)
                 (Scenario.request Scenario.hw_aa "alpha")
                 (Scenario.reply Scenario.hw_aa) (Scenario.world_aa Hour))))
      !! "aa" = Some r
    ∧ 7 * Second + Hour - Second < time_Unix (Expires r).
Proof.
  destruct (record_expiry_covers_lease (Scenario.world_aa Hour) (7 * Second)
              true (Scenario.request Scenario.hw_aa "alpha")
              (Scenario.reply Scenario.hw_aa)
              (mkDHCPv4 Scenario.hw_aa "" Scenario.ip2 (Some Hour))
              (snd (Handler4 (mkEnv (7 * Second) (7 * Second) true)
                      (Scenario.request Scenario.hw_aa "alpha")
                      (Scenario.reply Scenario.hw_aa)
                      (Scenario.world_aa Hour))))
    as (r & Hr & _ & Hexp).
  { vm_compute. reflexivity. }
  exists r. split; [exact Hr | exact Hexp].
Defined.

(** An instance of [later_request_writes_again]: [aa] leases at second
    5 and asks again one second later. *)
Lemma later_request_witness :
  ∃ rec,
    Consul.requests
      (consul
         (snd (Handler4 (Scenario.at_second 6 true)
                 (Scenario.request Scenario.hw_aa "alpha")
                 (Scenario.reply Scenario.hw_aa)
                 (snd (Handler4 (mkEnv (5 * Second) (5 * Second) true)
                         (Scenario.request Scenario.hw_aa "alpha")
                         (Scenario.reply Scenario.hw_aa)
                         (Scenario.world_empty Hour))))))
    = [("dhcp"%string, "aa"%string, rec);
       ("dhcp"%string, "aa"%string, mkRecord Scenario.ip2 3605 "alpha")].
Proof.
  destruct (later_request_writes_again (Scenario.world_empty Hour)
              (5 * Second) true (Scenario.request Scenario.hw_aa "alpha")
              (Scenario.reply Scenario.hw_aa) _ (Scenario.at_second 6 true)
              (Scenario.request Scenario.hw_aa "alpha")
              (Scenario.reply Scenario.hw_aa) _ (surjective_pairing _))
    as (rec & Hrec).
  - vm_compute. discriminate.
  - reflexivity.
  - vm_compute. reflexivity.
  - exists rec. exact Hrec.
Defined.

(** An instance of [store_follows_table_while_writes_succeed]. *)
Lemma store_follows_table_witness :
  durable Scenario.world_full "bb"
  = Recordsv4 (plugin Scenario.world_full) !! "bb".
Proof.
  refine (store_follows_table_while_writes_succeed true Scenario.empty_store
            (Scenario.args "1h") (Scenario.world_empty Hour)
            Scenario.calls_abc "bb" setup_world_empty _).
  repeat constructor.
Defined.

(** An instance of [restart_restores_lease_table]: the plugin is set up
    again after [aa], [bb], [cc] have leased. *)
Lemma restart_witness :
  ∃ w0',
    setupConsulRange true (consul Scenario.world_full) (Scenario.args "1h")
    = inl w0'
    ∧ Recordsv4 (plugin w0') = Recordsv4 (plugin Scenario.world_full).
Proof.
  destruct (setupConsulRange true (consul Scenario.world_full)
              (Scenario.args "1h")) as [w0'|err] eqn:Hagain.
  - exists w0'. split; [reflexivity |].
    refine (restart_restores_lease_table true Scenario.empty_store
              (Scenario.args "1h") (Scenario.world_empty Hour)
              Scenario.calls_abc true w0' setup_world_empty _ Hagain).
    repeat constructor.
  - vm_compute in Hagain. discriminate Hagain.
Defined.

(** An instance of [every_granted_address_is_on_record]. *)
Lemma granted_addresses_witness :
  size (Recordsv4 (plugin Scenario.world_full))
  = granted (allocations Scenario.world_full).
Proof.
  exact (every_granted_address_is_on_record GoRuntime_range_visits_all true
           Scenario.empty_store (Scenario.args "1h")
           (Scenario.world_empty Hour) Scenario.calls_abc setup_world_empty).
Defined.

(** An instance of [setup_rejects_duplicate_addresses]: [aa] and [bb]
    both hold 10.0.0.2 in the store. *)
Lemma duplicate_addresses_witness :
  ∃ err,
    setupConsulRange true
      (Consul.mk
         {[ Scenario.prefix :=
              {[ "aa"%string := Scenario.rec_aa;
                 "bb"%string := mkRecord Scenario.ip2 200 "beta" ]} ]} [])
      (Scenario.args "1h")
    = inr err.
Proof.
  refine (setup_rejects_duplicate_addresses RangeAllocator.allocated
            RangeAllocator_contract GoRuntime_range_visits_all true _
            (Scenario.args "1h") Scenario.prefix "aa" "bb" Scenario.rec_aa
            (mkRecord Scenario.ip2 200 "beta") eq_refl _ _ _ eq_refl).
  - vm_compute. reflexivity.
  - vm_compute. reflexivity.
  - discriminate.
Defined.

(** * Outcome and hostname *)

Section OutcomeFacts.

Context {A : Type} `{Allocator A}.

Implicit Types (w : World A) (e : Env) (req resp : DHCPv4).

(** X12. The handler either answers and lets the chain of handlers go
    on, or answers nothing and stops it; it stops exactly when the
    client has no record and the allocator returns an error. *)
Theorem request_dropped_only_on_exhaustion w e req resp :
  let mac := HardwareAddr_String (ClientHWAddr req) in
  let out := fst (Handler4 e req resp w) in
  (out = (None, true) ∨ ∃ resp', out = (Some resp', false))
  ∧ (out = (None, true)
     ↔ Recordsv4 (plugin w) !! mac = None
       ∧ ∃ err, snd (Allocate (allocator (plugin w)) None) = inr err).
Proof.
  intros mac out. subst out.
  handler_paths w e req resp Hpath; fold mac in Hpath, Hlookup;
    destruct Hpath as (w' & -> & _); cbn [fst].
  - split; [right; eauto |]. split; [discriminate |].
    intros [Hnone _]. congruence.
  - split; [right; eauto |]. split; [discriminate |].
    intros [Hnone _]. congruence.
  - split; [right; eauto |]. split; [discriminate |].
    intros [_ [err' Herr]]. cbn in Herr. discriminate Herr.
  - split; [by left |]. split; [| done].
    intros _. split; [exact Hlookup |]. by exists err.
Qed.

(** X13. The hostname on file follows the writes: after a successful
    call, the table record of the client carries the hostname of the
    request if the call has sent a write (a new lease or a renewal), and
    is the record that was on file, with the hostname of an earlier
    request, if it has not. *)
Theorem hostname_follows_writes w e req resp resp' w' :
  let mac := HardwareAddr_String (ClientHWAddr req) in
  Handler4 e req resp w = ((Some resp', false), w') →
  ∃ r', Recordsv4 (plugin w') !! mac = Some r'
    ∧ ((Consul.requests (consul w')
        = (consulKVPrefix (plugin w), mac, r') :: Consul.requests (consul w)
        ∧ Hostname r' = HostName req)
       ∨ (Consul.requests (consul w') = Consul.requests (consul w)
          ∧ Recordsv4 (plugin w) !! mac = Some r')).
Proof.
  intros mac Hrun.
  handler_paths w e req resp Hpath; fold mac in Hpath, Hlookup.
  - destruct Hpath as (w1 & Hrun1 & Htab & _ & _ & _ & _ & Hst & _).
    rewrite Hrun in Hrun1. inversion Hrun1; subst; clear Hrun1.
    eexists. rewrite Htab, lookup_insert_eq. split; [reflexivity |].
    left. split; [rewrite Hst; apply Consul_requests_Upsert | reflexivity].
  - destruct Hpath as (w1 & Hrun1 & Hp & Hst & _).
    rewrite Hrun in Hrun1. inversion Hrun1; subst; clear Hrun1.
    exists r0. rewrite Hp. split; [exact Hlookup |].
    right. split; [by rewrite Hst | exact Hlookup].
  - destruct Hpath as (w1 & Hrun1 & Htab & _ & _ & _ & _ & Hst & _).
    rewrite Hrun in Hrun1. inversion Hrun1; subst; clear Hrun1.
    eexists. rewrite Htab, lookup_insert_eq. split; [reflexivity |].
    left. split; [rewrite Hst; apply Consul_requests_Upsert | reflexivity].
  - destruct Hpath as (w1 & Hrun1 & _).
    rewrite Hrun in Hrun1. discriminate Hrun1.
Qed.

End OutcomeFacts.

(** An instance of [hostname_follows_writes]: [aa], on file as [alpha]
    with a lease of one hour that expires at second 100000, asks under
    another name at second 7; nothing is written and the name on file
    stays. *)
Lemma hostname_witness :
  ∃ r',
    Recordsv4
      (plugin (snd (Handler4 (Scenario.at_second 7 true)
                      (Scenario.request Scenario.hw_aa "renamed")
                      (Scenario.reply Scenario.hw_aa) Scenario.world_long_lease)))
      !! "aa" = Some r'
    ∧ Hostname r' = "alpha"%string.
Proof.
  destruct (hostname_follows_writes Scenario.world_long_lease
              (Scenario.at_second 7 true)
              (Scenario.request Scenario.hw_aa "renamed")
              (Scenario.reply Scenario.hw_aa)
              (mkDHCPv4 Scenario.hw_aa "" Scenario.ip2 (Some Hour))
              (snd (Handler4 (Scenario.at_second 7 true)
                      (Scenario.request Scenario.hw_aa "renamed")
                      (Scenario.reply Scenario.hw_aa) Scenario.world_long_lease)))
    as (r' & Hr' & [[Hsent _] | [_ Hold]]).
  - vm_compute. reflexivity.
  - vm_compute in Hsent. discriminate Hsent.
  - exists r'. split; [exact Hr' |].
    vm_compute in Hold. by injection Hold as <-.
Defined.
